(** * AutoAnonymize: the video anonymisation pipeline of [anonymize_vid.py]

    A shallow embedding of [anonymize_vid] (src/auto_anonymize/anonymize_vid.py)
    and the properties of its control flow: input validation, gallery
    building, the frame loop, resource release and profiling.

    The function talks to OpenCV, the file system, the clock and the
    detection / embedding models.  Those effects are made explicit: every
    call that touches the outside world is recorded, in program order, in a
    trace of [Event]s, and the values the outside world hands back (the
    decoded frames, the directory listing, the clock readings) are inputs
    of the model. *)

From Stdlib Require Import List String Ascii ZArith Bool Arith Lia.
Import ListNotations.
Open Scope string_scope.
#[local] Set Warnings "-register-all".

(** ** Python strings *)

Module PyStr.

(** [s.split(sep)] for a one-character separator: never empty, the pieces
    between the separators, empty pieces included. *)
Fixpoint split (sep : ascii) (s : string) : list string :=
  match s with
  | EmptyString => [EmptyString]
  | String c rest =>
      if Ascii.eqb c sep then EmptyString :: split sep rest
      else match split sep rest with
           | [] => [String c EmptyString]
           | piece :: pieces => String c piece :: pieces
           end
  end.

(** [l[-1]] on a list of strings ([split] never returns the empty list). *)
Definition last_item (l : list string) : string := List.last l EmptyString.

Definition is_upper (c : ascii) : bool :=
  let n := nat_of_ascii c in (65 <=? n)%nat && (n <=? 90)%nat.

Definition lower_char (c : ascii) : ascii :=
  if is_upper c then ascii_of_nat (nat_of_ascii c + 32) else c.

(** [s.lower()], on the ASCII letters.  No character outside ASCII
    lower-cases to one of the letters compared against below. *)
Fixpoint lower (s : string) : string :=
  match s with
  | EmptyString => EmptyString
  | String c rest => String (lower_char c) (lower rest)
  end.

(** [fnmatch]-style test for the pattern [*suffix]. *)
Fixpoint ends_with (suffix s : string) : bool :=
  if String.eqb s suffix then true
  else match s with
       | EmptyString => false
       | String _ rest => ends_with suffix rest
       end.

Fixpoint in_list (s : string) (l : list string) : bool :=
  match l with
  | [] => false
  | x :: xs => String.eqb s x || in_list s xs
  end.

End PyStr.

(** [path.split('.')[-1]]: what the source takes for the extension of a
    path. A path without a dot is its own extension. *)
Definition extension (path : string) : string :=
  PyStr.last_item (PyStr.split "."%char path).

(** ** The file system under the gallery directory *)

Inductive Entry : Type :=
| File (name : string)
| Dir (name : string) (children : list Entry).

Definition entry_name (e : Entry) : string :=
  match e with
  | File n => n
  | Dir n _ => n
  end.

Definition joinpath (dir name : string) : string := dir ++ "/" ++ name.

(** The pattern ['*.jpg'] of line 63, matched against an entry's name the
    way pathlib does on POSIX: case-sensitively. *)
Definition matches_jpg (name : string) : bool := PyStr.ends_with ".jpg" name.

(** The entries of one directory that match, as full paths. *)
Definition glob_here (dir : string) (entries : list Entry) : list string :=
  map (fun e => joinpath dir (entry_name e))
      (filter (fun e => matches_jpg (entry_name e)) entries).

(** What lies below one entry: nothing below a file, and below a directory
    its matching entries followed by what lies below each of them. *)
Fixpoint rglob_below (dir : string) (e : Entry) {struct e} : list string :=
  match e with
  | File _ => []
  | Dir name children =>
      glob_here (joinpath dir name) children
      ++ flat_map (rglob_below (joinpath dir name)) children
  end.

(** [Path(root).rglob('*.jpg')], turned into strings: the matching entries
    of [root] itself, then those of every directory below it. The paths
    are spelled [root/...], as pathlib spells them for a root written in
    its normal form (no trailing or doubled slash, no [.] component). *)
Definition rglob_jpg (root : string) (entries : list Entry) : list string :=
  glob_here root entries ++ flat_map (rglob_below root) entries.

(** Every name that occurs in a directory tree. *)
Fixpoint names_below (e : Entry) : list string :=
  match e with
  | File n => [n]
  | Dir n children => n :: flat_map names_below children
  end.

Definition tree_names (entries : list Entry) : list string :=
  flat_map names_below entries.

(** ** Frames and colour spaces *)

(** One pixel of a 3-channel 8-bit image; the meaning of the channels
    (B,G,R or R,G,B) depends on the colour space the image is in. *)
Record Pixel : Type := mkPixel { ch0 : Z; ch1 : Z; ch2 : Z }.

(** A frame is a raster: rows of pixels. *)
Definition Frame : Type := list (list Pixel).

Definition swap_channels (p : Pixel) : Pixel :=
  mkPixel (ch2 p) (ch1 p) (ch0 p).

(** [cv2.cvtColor(img, cv2.COLOR_RGB2BGR)] of line 113: on a 3-channel
    image the first and third channel change places. *)
Definition cvtColor_RGB2BGR (img : Frame) : Frame :=
  map (map swap_channels) img.

(** Modelled from the spec: [to_rgb] of [pkg_utils] is not among the
    sources. The Color-Space Adapter "converts a raw frame between the
    source's native channel order and the RGB order required by
    detection/embedding models"; OpenCV decodes frames in B,G,R order, so
    the conversion exchanges the first and third channel. *)
Definition to_rgb (frame : Frame) : Frame :=
  map (map swap_channels) frame.

Definition frame_height (f : Frame) : nat := List.length f.
Definition frame_widths (f : Frame) : list nat := map (@List.length Pixel) f.

(** ** The outside world *)

(** What [cv2.VideoCapture(src)] stands for: whether the file could be
    opened, the metadata [cap.get] reports, and the frames [cap.read]
    delivers, in order, before it first answers [ret = False]. *)
Record Capture : Type := mkCapture {
  isOpened : bool;
  FRAME_HEIGHT : Z;
  FRAME_WIDTH : Z;
  FRAME_COUNT : Z;
  stream : list Frame
}.

(** The files a run can see: the video behind each path, the entries of
    the directory at each path (none for a path that is no directory) and
    the image [rgb_read] decodes from each path. *)
Record World : Type := mkWorld {
  VideoCapture : string -> Capture;
  scandir : string -> list Entry;
  rgb_read : string -> Frame
}.

Inductive Resource : Type := FrameSource | FrameSink.

Inductive Exn : Type :=
| AssertionError (msg : string)
| NameError (name : string).

(** ** Collaborators

    The detectors, the embedder, the matcher and the drawing primitives
    live in modules that the source imports and does not define. They are
    capabilities the pipeline is parameterised by. *)

Class Collaborators : Type := {
  Region : Type;
  Descriptor : Type;
  Time : Type;

  RetinaNet : Type;
  load_retinanet : RetinaNet;
  detect_faces_ret : Frame -> RetinaNet -> list Region;
  detect_faces_hc : Frame -> list Region;
  embed_face : Frame -> list Region -> list Descriptor;
  recognize_face : list Descriptor -> list Descriptor -> list bool;

  (** [mark_faces_cv2] draws on the image it is given; the image after the
      call is its result here. *)
  mark_faces_cv2 : Frame -> list Region -> option (list bool) -> Frame;

  (** The obscuring filter on one region: method, kernel size, sigma. *)
  obscure : Frame -> Region -> string -> Z * Z -> Z -> Frame;

  (** [Path(dst).parent], as a string. *)
  Path_parent : string -> string;

  (** The clock: [time_time n] is what the [n]-th call of [time.time()]
      returns. Floating point arithmetic is kept abstract. *)
  time_time : nat -> Time;
  fsub : Time -> Time -> Time;
  fdiv : Time -> Time -> Time;
  of_int : Z -> Time;
  np_mean : list Time -> Time
}.

Section Pipeline.

Context {C : Collaborators}.

(** Modelled from the spec: [blur_faces] of [viz] is not among the
    sources. "For every region, if no match information is available
    (gallery absent) or the region's MatchResult is false, apply an
    obscuring filter [...] restricted to that region's bounding box";
    a matched region is left as it is; an empty [regions] sequence is a
    no-op. *)
Definition match_result (recognized : option (list bool)) (i : nat) : bool :=
  match recognized with
  | None => false
  | Some mask => nth i mask false
  end.

Fixpoint blur_from (i : nat) (img : Frame) (regions : list Region)
         (recognized : option (list bool))
         (method : string) (ksize : Z * Z) (sigma : Z) : Frame :=
  match regions with
  | [] => img
  | r :: rs =>
      blur_from (S i)
                (if match_result recognized i then img
                 else obscure img r method ksize sigma)
                rs recognized method ksize sigma
  end.

Definition blur_faces := blur_from 0.

(** *** Events and local state *)

(** The three lines printed at the end of a profiled run, by the numbers
    they are formatted from. *)
Inductive Summary : Type :=
| TotalLine (runtime : Time) (frames : Z) (fps : Time)
| DetectionLine (mean : Time) (frames : nat) (fps : Time)
| RecognitionLine (mean : Time) (frames : nat) (fps : Time).

Inductive Event : Type :=
| LoadRetinanet
| OpenCapture (src : string)
| Mkdir (dir : string)
| OpenWriter (dst : string) (fps width height : Z)
| Warn (msg : string)
| ImRead (path : string)
| Embed (img : Frame) (regions : list Region)
| Recognize (encs known : list Descriptor)
| Read (frame : option Frame)
| Write (bgr : Frame)
| Release (r : Resource)
| Print (line : Summary).

(** The trace so far (oldest event first), the number of clock readings
    taken, and the two collector lists of lines 76-77. The collectors
    are bound in Python only when [profile] is set; they are touched
    only then. *)
Record Locals : Type := mkLocals {
  trace : list Event;
  ticks : nat;
  detect_times : list Time;
  recog_times : list Time
}.

Definition initial : Locals := mkLocals [] 0 [] [].

Definition emit (e : Event) (st : Locals) : Locals :=
  mkLocals (trace st ++ [e]) (ticks st) (detect_times st) (recog_times st).

(** [time.time()]: the reading, and the state after it. *)
Definition now (st : Locals) : Time := time_time (ticks st).

Definition tick (st : Locals) : Locals :=
  mkLocals (trace st) (S (ticks st)) (detect_times st) (recog_times st).

Definition push_detect (t : Time) (st : Locals) : Locals :=
  mkLocals (trace st) (ticks st) (detect_times st ++ [t]) (recog_times st).

Definition push_recog (t : Time) (st : Locals) : Locals :=
  mkLocals (trace st) (ticks st) (detect_times st) (recog_times st ++ [t]).

Inductive Outcome : Type :=
| Returned (st : Locals)
| Raised (e : Exn) (st : Locals).

Definition locals_of (o : Outcome) : Locals :=
  match o with
  | Returned st => st
  | Raised _ st => st
  end.

Definition trace_of (o : Outcome) : list Event := trace (locals_of o).

(** *** The function, part by part *)

(** Lines 43-47. *)
Definition detect_fn (use_retinanet : bool) : Frame -> list Region :=
  if use_retinanet then fun img => detect_faces_ret img load_retinanet
  else detect_faces_hc.

(** Lines 69-72: the loop over [known_faces]. [encs] is the variable
    [recognized_face_encs]: unbound ([None]) before the first iteration,
    and bound anew by every iteration. *)
Fixpoint encode_known_faces (w : World) (detect : Frame -> list Region)
         (known_faces : list string) (encs : option (list Descriptor))
         (st : Locals) : option (list Descriptor) * Locals :=
  match known_faces with
  | [] => (encs, st)
  | filepath :: rest =>
      let face_rgb := rgb_read w filepath in
      let st := emit (ImRead filepath) st in
      let face_loc := detect face_rgb in
      let st := emit (Embed face_rgb face_loc) st in
      encode_known_faces w detect rest
                         (Some (embed_face face_rgb face_loc)) st
  end.

Definition no_faces_warning : string :=
  "[WARNING] known_faces_loc contains no faces. JPG files only.".

(** Lines 61-72: [perform_face_rec], [recognized_face_encs] and the
    state afterwards. *)
Definition get_known_encodings (w : World) (detect : Frame -> list Region)
           (known_faces_loc : option string) (st : Locals)
  : bool * option (list Descriptor) * Locals :=
  match known_faces_loc with
  | None => (false, None, st)
  | Some loc =>
      let known_faces := rglob_jpg loc (scandir w loc) in
      match known_faces with
      | [] => (false, None, emit (Warn no_faces_warning) st)
      | _ :: _ =>
          let '(encs, st') := encode_known_faces w detect known_faces None st in
          (true, encs, st')
      end
  end.

(** Lines 84-114: one iteration of the loop, after a successful read. *)
Definition process_frame (detect : Frame -> list Region)
           (perform_face_rec : bool)
           (recognized_face_encs : option (list Descriptor))
           (profile : bool) (frame : Frame) (st : Locals) : Outcome :=
  let rgb := to_rgb frame in
  let preds := detect rgb in
  let st :=
    if profile then
      let _detect_start := now st in
      let st := tick st in
      let elapsed := fsub (now st) _detect_start in
      push_detect elapsed (tick st)
    else st in
  match preds with
  | [] => Returned (emit (Write (cvtColor_RGB2BGR rgb)) st)
  | _ :: _ =>
      if perform_face_rec then
        let _recog_start := now st in
        let st := if profile then tick st else st in
        let face_encs := embed_face rgb preds in
        let st := emit (Embed rgb preds) st in
        match recognized_face_encs with
        | None => Raised (NameError "recognized_face_encs") st
        | Some known =>
            let recognized := recognize_face face_encs known in
            let st := emit (Recognize face_encs known) st in
            let st :=
              if profile then
                push_recog (fsub (now st) _recog_start) (tick st)
              else st in
            let rgb := mark_faces_cv2 rgb preds (Some recognized) in
            let rgb := blur_faces rgb preds (Some recognized)
                                  "gaussian" (25, 25)%Z 25%Z in
            Returned (emit (Write (cvtColor_RGB2BGR rgb)) st)
        end
      else
        let rgb := mark_faces_cv2 rgb preds None in
        let rgb := blur_faces rgb preds None "gaussian" (25, 25)%Z 25%Z in
        Returned (emit (Write (cvtColor_RGB2BGR rgb)) st)
  end.

(** Lines 80-114 for an opened capture: [frames] is what [cap.read()]
    still has to deliver. On the empty stream the read answers
    [ret = False] and the loop is left. *)
Fixpoint video_loop (detect : Frame -> list Region)
         (perform_face_rec : bool)
         (recognized_face_encs : option (list Descriptor))
         (profile : bool) (frames : list Frame) (st : Locals) : Outcome :=
  match frames with
  | [] => Returned (emit (Read None) st)
  | frame :: rest =>
      match process_frame detect perform_face_rec recognized_face_encs
                          profile frame (emit (Read (Some frame)) st) with
      | Returned st' =>
          video_loop detect perform_face_rec recognized_face_encs
                     profile rest st'
      | Raised e st' => Raised e st'
      end
  end.

(** Lines 118-125. *)
Definition summarize (cap : Capture) (start_time : Time) (st : Locals)
  : Locals :=
  let end_time := now st in
  let st := tick st in
  let runtime := fsub end_time start_time in
  let st := emit (Print (TotalLine runtime (FRAME_COUNT cap)
                                   (fdiv (of_int (FRAME_COUNT cap)) runtime)))
                 st in
  let st := emit (Print (DetectionLine
                           (np_mean (detect_times st))
                           (List.length (detect_times st))
                           (fdiv (of_int 1) (np_mean (detect_times st)))))
                 st in
  emit (Print (RecognitionLine
                 (np_mean (recog_times st))
                 (List.length (recog_times st))
                 (fdiv (of_int 1) (np_mean (recog_times st)))))
       st.

(** Lines 35-36. *)
Definition src_valid (src : string) : bool :=
  PyStr.in_list (PyStr.lower (extension src)) ["mov"; "mp4"].

Definition dst_valid (dst : string) : bool :=
  String.eqb (PyStr.lower (extension dst)) "mp4".

(** [anonymize_vid], lines 17-125. *)
Definition anonymize_vid (w : World) (src dst : string)
           (known_faces_loc : option string) (use_retinanet : bool)
           (batch_size : Z) (profile : bool) : Outcome :=
  let st := initial in
  if negb (src_valid src) then
    Raised (AssertionError "src is not a valid file.") st
  else if negb (dst_valid dst) then
    Raised (AssertionError "Output file format must be mp4.") st
  else
    let start_time := now st in
    let st := if profile then tick st else st in
    let st := if use_retinanet then emit LoadRetinanet st else st in
    let detect := detect_fn use_retinanet in
    let cap := VideoCapture w src in
    let st := emit (OpenCapture src) st in
    let st := emit (Mkdir (Path_parent dst)) st in
    let st := emit (OpenWriter dst 30 (FRAME_WIDTH cap) (FRAME_HEIGHT cap))
                   st in
    let '(perform_face_rec, recognized_face_encs, st) :=
      get_known_encodings w detect known_faces_loc st in
    let looped :=
      if isOpened cap then
        video_loop detect perform_face_rec recognized_face_encs profile
                   (stream cap) st
      else Returned st in
    match looped with
    | Raised e st => Raised e st
    | Returned st =>
        let st := emit (Release FrameSource) st in
        Returned (if profile then summarize cap start_time st else st)
    end.

(** *** Reading a trace *)

Definition frames_read (tr : list Event) : list Frame :=
  flat_map (fun e => match e with Read (Some f) => [f] | _ => [] end) tr.

Definition frames_written (tr : list Event) : list Frame :=
  flat_map (fun e => match e with Write f => [f] | _ => [] end) tr.

Definition embed_calls (tr : list Event) : list (Frame * list Region) :=
  flat_map (fun e => match e with Embed img rs => [(img, rs)] | _ => [] end) tr.

Definition recognize_calls (tr : list Event)
  : list (list Descriptor * list Descriptor) :=
  flat_map (fun e => match e with Recognize q g => [(q, g)] | _ => [] end) tr.

Definition warnings (tr : list Event) : list string :=
  flat_map (fun e => match e with Warn m => [m] | _ => [] end) tr.

Definition released (tr : list Event) : list Resource :=
  flat_map (fun e => match e with Release r => [r] | _ => [] end) tr.

Definition printed (tr : list Event) : list Summary :=
  flat_map (fun e => match e with Print l => [l] | _ => [] end) tr.

(** *** The run, event by event

    The same run described without the local state: which events one
    iteration of the loop gives rise to, and which frame it writes. The
    properties below relate [anonymize_vid] to this description. *)

(** Lines 94 and 97: matching runs on a frame when faces were detected
    and face recognition is switched on. *)
Definition has_faces (preds : list Region) : bool :=
  match preds with
  | [] => false
  | _ :: _ => true
  end.

Definition matching_ran (detect : Frame -> list Region)
           (perform_face_rec : bool) (frame : Frame) : bool :=
  has_faces (detect (to_rgb frame)) && perform_face_rec.

(** The match decisions handed to the annotation and blur stage. *)
Definition decisions (detect : Frame -> list Region)
           (perform_face_rec : bool) (known : list Descriptor)
           (frame : Frame) : option (list bool) :=
  let rgb := to_rgb frame in
  if perform_face_rec
  then Some (recognize_face (embed_face rgb (detect rgb)) known)
  else None.

(** The frame handed to [out.write] for one input frame. *)
Definition output_frame (detect : Frame -> list Region)
           (perform_face_rec : bool) (known : list Descriptor)
           (frame : Frame) : Frame :=
  let rgb := to_rgb frame in
  let preds := detect rgb in
  if has_faces preds then
    let recognized := decisions detect perform_face_rec known frame in
    cvtColor_RGB2BGR
      (blur_faces (mark_faces_cv2 rgb preds recognized) preds recognized
                  "gaussian" (25, 25)%Z 25%Z)
  else cvtColor_RGB2BGR rgb.

Definition matching_events (detect : Frame -> list Region)
           (perform_face_rec : bool) (known : list Descriptor)
           (frame : Frame) : list Event :=
  let rgb := to_rgb frame in
  let preds := detect rgb in
  if matching_ran detect perform_face_rec frame
  then [Embed rgb preds; Recognize (embed_face rgb preds) known]
  else [].

Definition frame_events (detect : Frame -> list Region)
           (perform_face_rec : bool) (known : list Descriptor)
           (frame : Frame) : list Event :=
  Read (Some frame)
  :: matching_events detect perform_face_rec known frame
  ++ [Write (output_frame detect perform_face_rec known frame)].

(** With profiling on, the clock is read twice around detection on every
    frame and twice more around matching where it runs; [n] is the number
    of readings taken before the first of [frames]. *)
Fixpoint recog_elapsed (detect : Frame -> list Region)
         (perform_face_rec : bool) (n : nat) (frames : list Frame)
  : list Time :=
  match frames with
  | [] => []
  | f :: rest =>
      if matching_ran detect perform_face_rec f
      then fsub (time_time (3 + n)) (time_time (2 + n))
           :: recog_elapsed detect perform_face_rec (4 + n) rest
      else recog_elapsed detect perform_face_rec (2 + n) rest
  end.

(** The local state after one iteration that started in [st], the read
    included. *)
Definition after_frame (detect : Frame -> list Region)
           (perform_face_rec : bool) (known : list Descriptor)
           (profile : bool) (frame : Frame) (st : Locals) : Locals :=
  let ran := matching_ran detect perform_face_rec frame in
  let n := ticks st in
  mkLocals
    (trace st ++ frame_events detect perform_face_rec known frame)
    (if profile then (if ran then 4 + n else 2 + n) else n)
    (detect_times st
     ++ (if profile then [fsub (time_time (1 + n)) (time_time n)] else []))
    (recog_times st
     ++ (if profile && ran
         then [fsub (time_time (3 + n)) (time_time (2 + n))] else [])).

Fixpoint after_frames (detect : Frame -> list Region)
         (perform_face_rec : bool) (known : list Descriptor)
         (profile : bool) (frames : list Frame) (st : Locals) : Locals :=
  match frames with
  | [] => st
  | f :: rest =>
      after_frames detect perform_face_rec known profile rest
                   (after_frame detect perform_face_rec known profile f st)
  end.

(** The encodings the loop finds in [recognized_face_encs]: bound exactly
    when face recognition is switched on. *)
Definition bound_encodings (perform_face_rec : bool)
           (known : list Descriptor) : option (list Descriptor) :=
  if perform_face_rec then Some known else None.

(** Lines 63-72 as events: every reference image is read and embedded. *)
Definition gallery_events (w : World) (detect : Frame -> list Region)
           (known_faces : list string) : list Event :=
  flat_map (fun p => [ImRead p;
                      Embed (rgb_read w p) (detect (rgb_read w p))])
           known_faces.

(** The reference images found for [known_faces_loc] (line 63). *)
Definition known_faces_of (w : World) (known_faces_loc : option string)
  : list string :=
  match known_faces_loc with
  | None => []
  | Some loc => rglob_jpg loc (scandir w loc)
  end.

(** The value of [recognized_face_encs] when the loop starts: what the
    last iteration of lines 69-72 bound it to. *)
Definition gallery_of (w : World) (detect : Frame -> list Region)
           (known_faces : list string) : list Descriptor :=
  match known_faces with
  | [] => []
  | _ :: _ =>
      let face_rgb := rgb_read w (List.last known_faces "") in
      embed_face face_rgb (detect face_rgb)
  end.

(** [len(known_faces) == 0] of line 64, negated. *)
Definition has_some (known_faces : list string) : bool :=
  match known_faces with
  | [] => false
  | _ :: _ => true
  end.

(** The frames the capture delivers to the loop. *)
Definition delivered (cap : Capture) : list Frame :=
  if isOpened cap then stream cap else [].

(** Lines 43-58 as events. *)
Definition setup_events (w : World) (src dst : string)
           (use_retinanet : bool) : list Event :=
  let cap := VideoCapture w src in
  (if use_retinanet then [LoadRetinanet] else [])
  ++ [OpenCapture src; Mkdir (Path_parent dst);
      OpenWriter dst 30 (FRAME_WIDTH cap) (FRAME_HEIGHT cap)].

(** Lines 61-72 as events: nothing without a gallery directory, the warning
    for a directory without reference images, the images otherwise. *)
Definition gallery_phase_events (w : World) (detect : Frame -> list Region)
           (known_faces_loc : option string) : list Event :=
  match known_faces_loc, known_faces_of w known_faces_loc with
  | Some _, [] => [Warn no_faces_warning]
  | _, known_faces => gallery_events w detect known_faces
  end.

(** The local state when [cap.release()] has been called (line 115), for an
    invocation that passed the assertions. *)
Definition at_release (w : World) (src dst : string)
           (known_faces_loc : option string) (use_retinanet : bool)
           (profile : bool) : Locals :=
  let detect := detect_fn use_retinanet in
  let cap := VideoCapture w src in
  let known_faces := known_faces_of w known_faces_loc in
  let st := mkLocals (setup_events w src dst use_retinanet
                      ++ gallery_phase_events w detect known_faces_loc)
                     (if profile then 1 else 0) [] [] in
  let st := if isOpened cap
            then emit (Read None)
                      (after_frames detect (has_some known_faces)
                                    (gallery_of w detect known_faces)
                                    profile (stream cap) st)
            else st in
  emit (Release FrameSource) st.

(** Lines 118-125 as events, printed from the state [st] reached at line
    117. *)
Definition summary_events (cap : Capture) (start_time : Time) (st : Locals)
  : list Event :=
  [Print (TotalLine (fsub (now st) start_time) (FRAME_COUNT cap)
                    (fdiv (of_int (FRAME_COUNT cap))
                          (fsub (now st) start_time)));
   Print (DetectionLine (np_mean (detect_times st))
                        (List.length (detect_times st))
                        (fdiv (of_int 1) (np_mean (detect_times st))));
   Print (RecognitionLine (np_mean (recog_times st))
                          (List.length (recog_times st))
                          (fdiv (of_int 1) (np_mean (recog_times st))))].

(** Lines 80-114 as events. *)
Definition loop_events (detect : Frame -> list Region)
           (perform_face_rec : bool) (known : list Descriptor)
           (cap : Capture) : list Event :=
  if isOpened cap
  then flat_map (frame_events detect perform_face_rec known) (stream cap)
       ++ [Read None]
  else [].

(** Both assertions of lines 35-36 hold. *)
Definition valid_paths (src dst : string) : bool :=
  src_valid src && dst_valid dst.

(** The [embed_face] calls of lines 69-72: one per reference image, on
    whatever the detector found in it. *)
Definition gallery_embed_calls (w : World) (detect : Frame -> list Region)
           (known_faces : list string) : list (Frame * list Region) :=
  map (fun p => (rgb_read w p, detect (rgb_read w p))) known_faces.

(** Every detected region obscured, none spared: what the blur stage does
    to a frame when it is given no match decisions. *)
Definition blur_all (img : Frame) (regions : list Region) : Frame :=
  fold_left (fun im r => obscure im r "gaussian" (25, 25)%Z 25%Z) regions img.

Definition anonymised_frame (detect : Frame -> list Region) (frame : Frame)
  : Frame :=
  let rgb := to_rgb frame in
  let preds := detect rgb in
  if has_faces preds
  then cvtColor_RGB2BGR (blur_all (mark_faces_cv2 rgb preds None) preds)
  else frame.


End Pipeline.

(** ** A small world to run the pipeline in

    Frames are one pixel large. A pixel with a positive middle channel is
    a face, and the value of that channel identifies the person. *)

Module Demo.

Definition face_ids (img : Frame) : list Z :=
  flat_map (fun row =>
              flat_map (fun p => if (0 <? ch1 p)%Z then [ch1 p] else []) row)
           img.

Definition black_out (img : Frame) (id : Z) : Frame :=
  map (map (fun p => if (ch1 p =? id)%Z then mkPixel 0 (ch1 p) 0 else p)) img.

Definition outline (img : Frame) : Frame :=
  map (map (fun p => mkPixel (ch0 p) (ch1 p) 255)) img.

Definition total (l : list Z) : Z := fold_right Z.add 0%Z l.

Definition parent (path : string) : string :=
  match removelast (PyStr.split "/"%char path) with
  | [] => "."
  | pieces => String.concat "/" pieces
  end.

Definition models : Collaborators := {|
  Region := Z;
  Descriptor := Z;
  Time := Z;
  RetinaNet := unit;
  load_retinanet := tt;
  detect_faces_ret := fun img _ => face_ids img;
  detect_faces_hc := face_ids;
  embed_face := fun _ regions => regions;
  recognize_face := fun encs known =>
                      map (fun e => existsb (Z.eqb e) known) encs;
  mark_faces_cv2 := fun img _ _ => outline img;
  obscure := fun img r _ _ _ => black_out img r;
  Path_parent := parent;
  time_time := fun n => (Z.of_nat n * 10)%Z;
  fsub := Z.sub;
  fdiv := Z.div;
  of_int := fun z => z;
  np_mean := fun l => (total l / Z.of_nat (List.length l))%Z
|}.

Definition face (id : Z) : Frame := [[mkPixel 10 id 30]].
Definition blank : Frame := [[mkPixel 10 0 30]].

Definition clip : Capture := mkCapture true 1 1 3 [face 7; blank; face 9].
Definition unreadable : Capture := mkCapture false 0 0 0 [].

Definition world : World := {|
  VideoCapture := fun path => if path =? "in.mp4" then clip else unreadable;
  scandir := fun path =>
    if path =? "faces" then [File "a.jpg"; File "b.jpg"]
    else if path =? "others"
         then [File "A.JPG"; File "b.jpeg"; Dir "sub" [File "c.png"]]
    else if path =? "noface" then [File "blank.jpg"]
    else [];
  rgb_read := fun path =>
    if path =? "faces/a.jpg" then face 7
    else if path =? "faces/b.jpg" then face 9
    else blank
|}.

Definition run := anonymize_vid (C := models) world.

End Demo.

(** ** Further readings of a path and of a trace *)

(** [c in s], for a character [c]. *)
Fixpoint has_char (c : ascii) (s : string) : bool :=
  match s with
  | EmptyString => false
  | String a rest => Ascii.eqb a c || has_char c rest
  end.

(** [sep.join(pieces)] for a one-character separator. *)
Definition join (sep : ascii) (pieces : list string) : string :=
  String.concat (String sep EmptyString) pieces.

(** The number of entries, at any depth, whose name matches ['*.jpg']. *)
Definition count_jpg (entries : list Entry) : nat :=
  List.length (filter matches_jpg (tree_names entries)).



(** Whether two strings are the same up to the case of the letters A-Z:
    they have the same length and agree character by character once the
    letters A-Z are lower-cased. Every other character, the bytes of a
    non-ASCII character included, has to be the same in both. *)
Fixpoint eq_ignoring_ascii_case (p q : string) : bool :=
  match p, q with
  | EmptyString, EmptyString => true
  | String a p', String b q' =>
      Ascii.eqb (PyStr.lower_char a) (PyStr.lower_char b)
      && eq_ignoring_ascii_case p' q'
  | _, _ => false
  end.

Section Observations.

Context {C : Collaborators}.

(** The events of lines 43-58: loading the model, opening the capture,
    creating the output directory, opening the writer. *)
Definition is_setup (e : Event) : bool :=
  match e with
  | LoadRetinanet | OpenCapture _ | Mkdir _ | OpenWriter _ _ _ _ => true
  | _ => false
  end.

(** The events on the two video streams: the reads from the source and
    the writes to the sink. *)
Definition is_io (e : Event) : bool :=
  match e with
  | Read _ | Write _ => true
  | _ => false
  end.

Definition io_events (tr : list Event) : list Event := filter is_io tr.

(** The reference images decoded by [rgb_read], in program order. *)
Definition image_reads (tr : list Event) : list string :=
  flat_map (fun e => match e with ImRead p => [p] | _ => [] end) tr.

(** With profiling on, the time measured around detection (lines 88-90)
    for each of [frames]; [n] is the number of clock readings taken before
    the first of them. *)
Fixpoint detect_elapsed (detect : Frame -> list Region)
         (perform_face_rec : bool) (n : nat) (frames : list Frame)
  : list Time :=
  match frames with
  | [] => []
  | f :: rest =>
      fsub (time_time (1 + n)) (time_time n)
      :: detect_elapsed detect perform_face_rec
                        (if matching_ran detect perform_face_rec f
                         then 4 + n else 2 + n)
                        rest
  end.

(** The frames on which matching runs. *)
Definition matched_frames (detect : Frame -> list Region)
           (perform_face_rec : bool) (frames : list Frame) : list Frame :=
  filter (matching_ran detect perform_face_rec) frames.

End Observations.

(** A second small world: a capture that could not be opened, a capture
    whose container announces more frames than it delivers, and a gallery
    with a sub-directory. *)
Module Demo2.

Definition broken : Capture :=
  mkCapture false 0 0 0 [Demo.face 7; Demo.blank].

Definition cut_short : Capture :=
  mkCapture true 1 1 5 [Demo.face 7; Demo.blank].

Definition world : World := {|
  VideoCapture := fun path =>
    if path =? "broken.mp4" then broken
    else if path =? "cut.mp4" then cut_short
    else Demo.clip;
  scandir := fun path =>
    if path =? "team"
    then [File "a.jpg"; File "B.JPG";
          Dir "old.jpg" [File "c.jpg"; File "notes.txt"]]
    else [];
  rgb_read := fun _ => Demo.face 7
|}.

Definition run := anonymize_vid (C := Demo.models) world.

End Demo2.

(** * Properties *)

Section Properties.

Context {C : Collaborators}.
Local Open Scope list_scope.

(** ** Strings, paths and the gallery listing *)

Lemma swap_channels_involutive (p : Pixel) :
  swap_channels (swap_channels p) = p.
Proof. destruct p; reflexivity. Qed.

Lemma to_rgb_round_trip (frame : Frame) :
  cvtColor_RGB2BGR (to_rgb frame) = frame.
Proof.
  unfold cvtColor_RGB2BGR, to_rgb.
  rewrite map_map.
  rewrite <- (map_id frame) at 2.
  apply map_ext; intros row.
  rewrite map_map.
  rewrite <- (map_id row) at 2.
  apply map_ext; intros p. apply swap_channels_involutive.
Qed.


Lemma flat_map_nil {A B : Type} (f : A -> list B) (l : list A) :
  Forall (fun x => f x = []) l -> flat_map f l = [].
Proof.
  induction 1 as [|x xs Hx _ IH]; simpl; [reflexivity|].
  rewrite Hx, IH. reflexivity.
Qed.




(** ** The local state *)

Lemma locals_eta (st : Locals) :
  mkLocals (trace st) (ticks st) (detect_times st) (recog_times st) = st.
Proof. destruct st; reflexivity. Qed.

(** ** Gallery building (lines 61-72) *)

Lemma encode_known_faces_spec (w : World) (detect : Frame -> list Region) :
  forall known_faces encs st,
    encode_known_faces w detect known_faces encs st =
    (match known_faces with
     | [] => encs
     | _ :: _ => Some (gallery_of w detect known_faces)
     end,
     mkLocals (trace st ++ gallery_events w detect known_faces)
              (ticks st) (detect_times st) (recog_times st)).
Proof.
  induction known_faces as [|p rest IH]; intros encs st.
  - simpl. rewrite app_nil_r, locals_eta. reflexivity.
  - cbn [encode_known_faces]. rewrite IH. cbn [emit trace ticks detect_times recog_times].
    f_equal.
    + destruct rest as [|q rest']; reflexivity.
    + unfold gallery_events. cbn [flat_map].
      rewrite <- !app_assoc. reflexivity.
Qed.

(** Whether face recognition is switched on, and with which encodings. *)
Lemma get_known_encodings_spec (w : World) (detect : Frame -> list Region)
      (known_faces_loc : option string) (st : Locals) :
  let known_faces := known_faces_of w known_faces_loc in
  get_known_encodings w detect known_faces_loc st =
  (has_some known_faces,
   if has_some known_faces then Some (gallery_of w detect known_faces) else None,
   mkLocals (trace st
             ++ (match known_faces_loc, known_faces with
                 | Some _, [] => [Warn no_faces_warning]
                 | _, _ => gallery_events w detect known_faces
                 end))
            (ticks st) (detect_times st) (recog_times st)).
Proof.
  destruct known_faces_loc as [loc|]; cbn [known_faces_of get_known_encodings].
  - destruct (rglob_jpg loc (scandir w loc)) as [|p rest] eqn:E.
    + reflexivity.
    + rewrite encode_known_faces_spec. reflexivity.
  - cbn. rewrite app_nil_r, locals_eta. reflexivity.
Qed.

(** ** One iteration of the loop (lines 81-114) *)

Lemma process_frame_spec (detect : Frame -> list Region)
      (perform_face_rec : bool) (known : list Descriptor) (profile : bool)
      (frame : Frame) (st : Locals) :
  process_frame detect perform_face_rec
                (bound_encodings perform_face_rec known) profile frame
                (emit (Read (Some frame)) st)
  = Returned (after_frame detect perform_face_rec known profile frame st).
Proof.
  unfold process_frame, after_frame, frame_events, matching_events,
    output_frame, matching_ran, decisions, bound_encodings.
  destruct (detect (to_rgb frame)) as [|r rs] eqn:Hpreds;
    destruct perform_face_rec, profile;
    unfold emit, tick, push_detect, push_recog, now;
    cbn [has_faces andb trace ticks detect_times recog_times Nat.add];
    rewrite ?app_nil_r, <- ?app_assoc; reflexivity.
Qed.

(** ** The loop (lines 80-114) *)

Lemma video_loop_spec (detect : Frame -> list Region)
      (perform_face_rec : bool) (known : list Descriptor) (profile : bool) :
  forall frames st,
    video_loop detect perform_face_rec
               (bound_encodings perform_face_rec known) profile frames st
    = Returned (emit (Read None)
                     (after_frames detect perform_face_rec known profile
                                   frames st)).
Proof.
  induction frames as [|f rest IH]; intros st; cbn [video_loop after_frames].
  - reflexivity.
  - rewrite process_frame_spec. apply IH.
Qed.

Lemma after_frames_trace (detect : Frame -> list Region)
      (perform_face_rec : bool) (known : list Descriptor) (profile : bool) :
  forall frames st,
    trace (after_frames detect perform_face_rec known profile frames st)
    = trace st
      ++ flat_map (frame_events detect perform_face_rec known) frames.
Proof.
  induction frames as [|f rest IH]; intros st; cbn [after_frames flat_map].
  - rewrite app_nil_r. reflexivity.
  - rewrite IH. cbn [after_frame trace]. rewrite <- app_assoc. reflexivity.
Qed.

Lemma after_frames_recog_times (detect : Frame -> list Region)
      (perform_face_rec : bool) (known : list Descriptor) :
  forall frames st,
    recog_times (after_frames detect perform_face_rec known true frames st)
    = recog_times st
      ++ recog_elapsed detect perform_face_rec (ticks st) frames.
Proof.
  induction frames as [|f rest IH]; intros st;
    cbn [after_frames recog_elapsed].
  - rewrite app_nil_r. reflexivity.
  - rewrite IH. cbn [after_frame recog_times ticks andb].
    destruct (matching_ran detect perform_face_rec f).
    + rewrite <- app_assoc. reflexivity.
    + rewrite app_nil_r. reflexivity.
Qed.

Lemma after_frames_unprofiled (detect : Frame -> list Region)
      (perform_face_rec : bool) (known : list Descriptor) :
  forall frames st,
    recog_times (after_frames detect perform_face_rec known false frames st)
    = recog_times st.
Proof.
  induction frames as [|f rest IH]; intros st; cbn [after_frames].
  - reflexivity.
  - rewrite IH. cbn. apply app_nil_r.
Qed.

(** ** The whole run *)

Lemma summarize_trace (cap : Capture) (start_time : Time) (st : Locals) :
  trace (summarize cap start_time st)
  = trace st ++ summary_events cap start_time st.
Proof.
  unfold summarize, summary_events, emit, tick, now;
    cbn [trace ticks detect_times recog_times].
  rewrite <- !app_assoc. reflexivity.
Qed.

Lemma summarize_recog_times (cap : Capture) (start_time : Time) (st : Locals) :
  recog_times (summarize cap start_time st) = recog_times st.
Proof. reflexivity. Qed.

(** What [anonymize_vid] returns, for every input: the assertion failures
    of lines 35-36 before anything is done, and otherwise a normal return
    after [cap.release()] and, when profiling, the summary. *)
Lemma anonymize_vid_spec (w : World) (src dst : string)
      (known_faces_loc : option string) (use_retinanet : bool)
      (batch_size : Z) (profile : bool) :
  anonymize_vid w src dst known_faces_loc use_retinanet batch_size profile
  = if negb (src_valid src)
    then Raised (AssertionError "src is not a valid file.") initial
    else if negb (dst_valid dst)
    then Raised (AssertionError "Output file format must be mp4.") initial
    else
      let st := at_release w src dst known_faces_loc use_retinanet profile in
      Returned (if profile
                then summarize (VideoCapture w src) (time_time 0) st
                else st).
Proof.
  unfold anonymize_vid.
  destruct (negb (src_valid src)); [reflexivity|].
  destruct (negb (dst_valid dst)); [reflexivity|].
  rewrite get_known_encodings_spec.
  cbv zeta. unfold at_release.
  change (if has_some (known_faces_of w known_faces_loc)
          then Some (gallery_of w (detect_fn use_retinanet)
                                (known_faces_of w known_faces_loc))
          else None)
    with (bound_encodings (has_some (known_faces_of w known_faces_loc))
                          (gallery_of w (detect_fn use_retinanet)
                                      (known_faces_of w known_faces_loc))).
  assert (Hsetup :
            trace (emit (OpenWriter dst 30 (FRAME_WIDTH (VideoCapture w src))
                                    (FRAME_HEIGHT (VideoCapture w src)))
                     (emit (Mkdir (Path_parent dst))
                        (emit (OpenCapture src)
                           (if use_retinanet
                            then emit LoadRetinanet
                                      (if profile then tick initial else initial)
                            else if profile then tick initial else initial))))
            = setup_events w src dst use_retinanet).
  { destruct use_retinanet, profile; reflexivity. }
  set (st0 := emit (OpenWriter _ _ _ _) _) in *.
  assert (Hticks : ticks st0 = if profile then 1 else 0).
  { subst st0. destruct use_retinanet, profile; reflexivity. }
  assert (Hdt : detect_times st0 = []).
  { subst st0. destruct use_retinanet, profile; reflexivity. }
  assert (Hrt : recog_times st0 = []).
  { subst st0. destruct use_retinanet, profile; reflexivity. }
  rewrite Hsetup, Hticks, Hdt, Hrt.
  unfold gallery_phase_events.
  destruct known_faces_loc as [loc|];
    [destruct (known_faces_of w (Some loc)) as [|p rest]|];
    (destruct (isOpened (VideoCapture w src));
     [rewrite video_loop_spec|]; reflexivity).
Qed.

Lemma at_release_trace (w : World) (src dst : string)
      (known_faces_loc : option string) (use_retinanet profile : bool) :
  let detect := detect_fn use_retinanet in
  let known_faces := known_faces_of w known_faces_loc in
  trace (at_release w src dst known_faces_loc use_retinanet profile)
  = setup_events w src dst use_retinanet
    ++ gallery_phase_events w detect known_faces_loc
    ++ loop_events detect (has_some known_faces)
                   (gallery_of w detect known_faces) (VideoCapture w src)
    ++ [Release FrameSource].
Proof.
  cbv zeta. unfold at_release, loop_events.
  destruct (isOpened (VideoCapture w src)); cbn [emit trace].
  - rewrite after_frames_trace. cbn [trace].
    rewrite <- !app_assoc. reflexivity.
  - rewrite <- !app_assoc. reflexivity.
Qed.

(** The trace of an invocation that passes the assertions. *)
Lemma valid_run_trace (w : World) (src dst : string)
      (known_faces_loc : option string) (use_retinanet : bool)
      (batch_size : Z) (profile : bool) :
  valid_paths src dst = true ->
  let detect := detect_fn use_retinanet in
  let known_faces := known_faces_of w known_faces_loc in
  let st := at_release w src dst known_faces_loc use_retinanet profile in
  trace_of (anonymize_vid w src dst known_faces_loc use_retinanet
                          batch_size profile)
  = setup_events w src dst use_retinanet
    ++ gallery_phase_events w detect known_faces_loc
    ++ loop_events detect (has_some known_faces)
                   (gallery_of w detect known_faces) (VideoCapture w src)
    ++ [Release FrameSource]
    ++ (if profile
        then summary_events (VideoCapture w src) (time_time 0) st
        else []).
Proof.
  unfold valid_paths. intros Hvalid.
  apply andb_true_iff in Hvalid as [Hsrc Hdst].
  cbv zeta. rewrite anonymize_vid_spec, Hsrc, Hdst.
  cbn [negb]. cbv zeta. unfold trace_of. cbn [locals_of].
  destruct profile.
  - rewrite summarize_trace, at_release_trace. cbv zeta.
    rewrite <- !app_assoc. reflexivity.
  - rewrite at_release_trace. cbv zeta. rewrite app_nil_r. reflexivity.
Qed.

(** The trace of an invocation that fails an assertion: empty. *)
Lemma invalid_run_trace (w : World) (src dst : string)
      (known_faces_loc : option string) (use_retinanet : bool)
      (batch_size : Z) (profile : bool) :
  valid_paths src dst = false ->
  trace_of (anonymize_vid w src dst known_faces_loc use_retinanet
                          batch_size profile) = [].
Proof.
  unfold valid_paths. intros Hinvalid. rewrite anonymize_vid_spec.
  destruct (src_valid src); [|reflexivity].
  destruct (dst_valid dst); [discriminate|reflexivity].
Qed.

(** ** Reading the trace of a run *)

Lemma flat_map_comp {A B D : Type} (f : A -> list B) (g : B -> list D)
      (l : list A) :
  flat_map g (flat_map f l) = flat_map (fun x => flat_map g (f x)) l.
Proof.
  induction l as [|x xs IH]; cbn [flat_map]; [reflexivity|].
  rewrite flat_map_app, IH. reflexivity.
Qed.

Lemma flat_map_single {A B : Type} (h : A -> B) (l : list A) :
  flat_map (fun x => [h x]) l = map h l.
Proof.
  induction l as [|x xs IH]; cbn [flat_map map app]; [reflexivity|].
  rewrite IH. reflexivity.
Qed.

Lemma frames_read_app (a b : list Event) :
  frames_read (a ++ b) = frames_read a ++ frames_read b.
Proof. apply flat_map_app. Qed.

Lemma frames_written_app (a b : list Event) :
  frames_written (a ++ b) = frames_written a ++ frames_written b.
Proof. apply flat_map_app. Qed.

Lemma embed_calls_app (a b : list Event) :
  embed_calls (a ++ b) = embed_calls a ++ embed_calls b.
Proof. apply flat_map_app. Qed.

Lemma recognize_calls_app (a b : list Event) :
  recognize_calls (a ++ b) = recognize_calls a ++ recognize_calls b.
Proof. apply flat_map_app. Qed.

Lemma warnings_app (a b : list Event) :
  warnings (a ++ b) = warnings a ++ warnings b.
Proof. apply flat_map_app. Qed.

Lemma released_app (a b : list Event) :
  released (a ++ b) = released a ++ released b.
Proof. apply flat_map_app. Qed.

Lemma printed_app (a b : list Event) :
  printed (a ++ b) = printed a ++ printed b.
Proof. apply flat_map_app. Qed.

(** Distribute a projection of the trace over the phases of a run. *)
Ltac project :=
  rewrite ?frames_read_app, ?frames_written_app, ?embed_calls_app,
    ?recognize_calls_app, ?warnings_app, ?released_app, ?printed_app.

(** Unfold a projection down to [flat_map]. *)
Ltac unproject :=
  unfold frames_read, frames_written, embed_calls, recognize_calls,
    warnings, released, printed;
  rewrite ?flat_map_app.

Lemma setup_events_silent (w : World) (src dst : string)
      (use_retinanet : bool) :
  let tr := setup_events w src dst use_retinanet in
  frames_read tr = [] /\ frames_written tr = [] /\ embed_calls tr = []
  /\ recognize_calls tr = [] /\ warnings tr = [] /\ released tr = []
  /\ printed tr = [].
Proof. destruct use_retinanet; repeat split; reflexivity. Qed.

Lemma gallery_events_silent (w : World) (detect : Frame -> list Region)
      (known_faces : list string) :
  let tr := gallery_events w detect known_faces in
  frames_read tr = [] /\ frames_written tr = [] /\ recognize_calls tr = []
  /\ warnings tr = [] /\ released tr = [] /\ printed tr = [].
Proof.
  cbv zeta. unfold gallery_events.
  repeat split; unproject; rewrite flat_map_comp;
    apply flat_map_nil, Forall_forall; reflexivity.
Qed.

Lemma gallery_phase_silent (w : World) (detect : Frame -> list Region)
      (known_faces_loc : option string) :
  let tr := gallery_phase_events w detect known_faces_loc in
  frames_read tr = [] /\ frames_written tr = [] /\ recognize_calls tr = []
  /\ released tr = [] /\ printed tr = [].
Proof.
  cbv zeta. unfold gallery_phase_events.
  destruct (gallery_events_silent
              w detect (known_faces_of w known_faces_loc))
    as (Hr & Hw & Hm & _ & Hl & Hp).
  destruct known_faces_loc as [loc|];
    [destruct (known_faces_of w (Some loc)) as [|p rest]|];
    repeat split; solve [reflexivity | assumption].
Qed.

Lemma summary_events_silent (cap : Capture) (start_time : Time)
      (st : Locals) :
  let tr := summary_events cap start_time st in
  frames_read tr = [] /\ frames_written tr = [] /\ embed_calls tr = []
  /\ recognize_calls tr = [] /\ warnings tr = [] /\ released tr = [].
Proof. repeat split; reflexivity. Qed.

Lemma frame_events_read (detect : Frame -> list Region)
      (perform_face_rec : bool) (known : list Descriptor) (f : Frame) :
  frames_read (frame_events detect perform_face_rec known f) = [f].
Proof.
  unfold frame_events, matching_events.
  destruct (matching_ran detect perform_face_rec f); reflexivity.
Qed.

Lemma frame_events_written (detect : Frame -> list Region)
      (perform_face_rec : bool) (known : list Descriptor) (f : Frame) :
  frames_written (frame_events detect perform_face_rec known f)
  = [output_frame detect perform_face_rec known f].
Proof.
  unfold frame_events, matching_events.
  destruct (matching_ran detect perform_face_rec f); reflexivity.
Qed.

Lemma frame_events_recognize (detect : Frame -> list Region)
      (perform_face_rec : bool) (known : list Descriptor) (f : Frame) :
  recognize_calls (frame_events detect perform_face_rec known f)
  = if matching_ran detect perform_face_rec f
    then [(embed_face (to_rgb f) (detect (to_rgb f)), known)]
    else [].
Proof.
  unfold frame_events, matching_events.
  destruct (matching_ran detect perform_face_rec f); reflexivity.
Qed.

Lemma frame_events_embed (detect : Frame -> list Region)
      (perform_face_rec : bool) (known : list Descriptor) (f : Frame) :
  embed_calls (frame_events detect perform_face_rec known f)
  = if matching_ran detect perform_face_rec f
    then [(to_rgb f, detect (to_rgb f))]
    else [].
Proof.
  unfold frame_events, matching_events.
  destruct (matching_ran detect perform_face_rec f); reflexivity.
Qed.

Lemma frame_events_quiet (detect : Frame -> list Region)
      (perform_face_rec : bool) (known : list Descriptor) (f : Frame) :
  let tr := frame_events detect perform_face_rec known f in
  warnings tr = [] /\ released tr = [] /\ printed tr = [].
Proof.
  cbv zeta. unfold frame_events, matching_events.
  destruct (matching_ran detect perform_face_rec f);
    repeat split; reflexivity.
Qed.

Lemma loop_events_read (detect : Frame -> list Region)
      (perform_face_rec : bool) (known : list Descriptor) (cap : Capture) :
  frames_read (loop_events detect perform_face_rec known cap)
  = delivered cap.
Proof.
  unfold loop_events, delivered.
  destruct (isOpened cap); [|reflexivity].
  unproject. rewrite flat_map_comp.
  rewrite (flat_map_ext _ (fun f => [f])).
  - rewrite flat_map_single, map_id. apply app_nil_r.
  - intros f. apply frame_events_read.
Qed.

Lemma loop_events_written (detect : Frame -> list Region)
      (perform_face_rec : bool) (known : list Descriptor) (cap : Capture) :
  frames_written (loop_events detect perform_face_rec known cap)
  = map (output_frame detect perform_face_rec known) (delivered cap).
Proof.
  unfold loop_events, delivered.
  destruct (isOpened cap); [|reflexivity].
  unproject. rewrite flat_map_comp.
  rewrite (flat_map_ext
             _ (fun f => [output_frame detect perform_face_rec known f])).
  - rewrite flat_map_single. apply app_nil_r.
  - intros f. apply frame_events_written.
Qed.

Lemma loop_events_recognize (detect : Frame -> list Region)
      (perform_face_rec : bool) (known : list Descriptor) (cap : Capture) :
  recognize_calls (loop_events detect perform_face_rec known cap)
  = map (fun f => (embed_face (to_rgb f) (detect (to_rgb f)), known))
        (filter (matching_ran detect perform_face_rec) (delivered cap)).
Proof.
  unfold loop_events, delivered.
  destruct (isOpened cap); [|reflexivity].
  unproject. rewrite flat_map_comp. cbn [flat_map]. rewrite app_nil_r.
  induction (stream cap) as [|f rest IH]; cbn [flat_map filter];
    [reflexivity|].
  fold (recognize_calls (frame_events detect perform_face_rec known f)).
  rewrite frame_events_recognize, IH.
  destruct (matching_ran detect perform_face_rec f); reflexivity.
Qed.

Lemma loop_events_embed (detect : Frame -> list Region)
      (perform_face_rec : bool) (known : list Descriptor) (cap : Capture) :
  embed_calls (loop_events detect perform_face_rec known cap)
  = map (fun f => (to_rgb f, detect (to_rgb f)))
        (filter (matching_ran detect perform_face_rec) (delivered cap)).
Proof.
  unfold loop_events, delivered.
  destruct (isOpened cap); [|reflexivity].
  unproject. rewrite flat_map_comp. cbn [flat_map]. rewrite app_nil_r.
  induction (stream cap) as [|f rest IH]; cbn [flat_map filter];
    [reflexivity|].
  fold (embed_calls (frame_events detect perform_face_rec known f)).
  rewrite frame_events_embed, IH.
  destruct (matching_ran detect perform_face_rec f); reflexivity.
Qed.

Lemma loop_events_quiet (detect : Frame -> list Region)
      (perform_face_rec : bool) (known : list Descriptor) (cap : Capture) :
  let tr := loop_events detect perform_face_rec known cap in
  warnings tr = [] /\ released tr = [] /\ printed tr = [].
Proof.
  cbv zeta. unfold loop_events.
  destruct (isOpened cap); [|repeat split; reflexivity].
  repeat split; unproject; rewrite flat_map_comp, app_nil_r;
    apply flat_map_nil, Forall_forall; intros f _;
    apply (frame_events_quiet detect perform_face_rec known f).
Qed.

(** Split on the assertions of lines 35-36 and rewrite the trace of the
    run accordingly. *)
Ltac by_validity src dst :=
  let Hv := fresh "Hvalid" in
  destruct (valid_paths src dst) eqn:Hv;
  [ rewrite (valid_run_trace _ _ _ _ _ _ _ Hv); cbv zeta
  | rewrite (invalid_run_trace _ _ _ _ _ _ _ Hv); try reflexivity ].

Section Runs.

Variable w : World.
Variables src dst : string.
Variable known_faces_loc : option string.
Variable use_retinanet : bool.
Variable batch_size : Z.
Variable profile : bool.

Local Abbreviation detect := (detect_fn use_retinanet).
Local Abbreviation known_faces := (known_faces_of w known_faces_loc).
Local Abbreviation perform_face_rec := (has_some known_faces).
Local Abbreviation known := (gallery_of w detect known_faces).
Local Abbreviation cap := (VideoCapture w src).
Local Abbreviation tr :=
  (trace_of (anonymize_vid w src dst known_faces_loc use_retinanet
                           batch_size profile)).

Lemma run_frames_read :
  frames_read tr = if valid_paths src dst then delivered cap else [].
Proof.
  by_validity src dst.
  destruct (setup_events_silent w src dst use_retinanet) as (H1 & _).
  destruct (gallery_phase_silent w detect known_faces_loc) as (H2 & _).
  project.
  rewrite H1, H2, loop_events_read.
  destruct profile; cbn [flat_map app]; rewrite ?app_nil_r; reflexivity.
Qed.

Lemma run_frames_written :
  frames_written tr
  = if valid_paths src dst
    then map (output_frame detect perform_face_rec known) (delivered cap)
    else [].
Proof.
  by_validity src dst.
  destruct (setup_events_silent w src dst use_retinanet) as (_ & H1 & _).
  destruct (gallery_phase_silent w detect known_faces_loc) as (_ & H2 & _).
  project.
  rewrite H1, H2, loop_events_written.
  destruct profile; cbn [flat_map app]; rewrite ?app_nil_r; reflexivity.
Qed.

Lemma run_recognize_calls :
  recognize_calls tr
  = if valid_paths src dst
    then map (fun f => (embed_face (to_rgb f) (detect (to_rgb f)), known))
             (filter (matching_ran detect perform_face_rec) (delivered cap))
    else [].
Proof.
  by_validity src dst.
  destruct (setup_events_silent w src dst use_retinanet)
    as (_ & _ & _ & H1 & _).
  destruct (gallery_phase_silent w detect known_faces_loc)
    as (_ & _ & H2 & _).
  project.
  rewrite H1, H2, loop_events_recognize.
  destruct profile; cbn [flat_map app]; rewrite ?app_nil_r; reflexivity.
Qed.

Lemma run_released :
  released tr = if valid_paths src dst then [FrameSource] else [].
Proof.
  by_validity src dst.
  destruct (setup_events_silent w src dst use_retinanet)
    as (_ & _ & _ & _ & _ & H1 & _).
  destruct (gallery_phase_silent w detect known_faces_loc)
    as (_ & _ & _ & H2 & _).
  destruct (loop_events_quiet detect perform_face_rec known cap)
    as (_ & H3 & _).
  project.
  rewrite H1, H2, H3.
  destruct profile; reflexivity.
Qed.

Lemma gallery_phase_embed :
  embed_calls (gallery_phase_events w detect known_faces_loc)
  = gallery_embed_calls w detect known_faces.
Proof.
  unfold gallery_phase_events, gallery_embed_calls.
  assert (H : embed_calls (gallery_events w detect known_faces)
              = map (fun p => (rgb_read w p, detect (rgb_read w p)))
                    known_faces).
  { unfold gallery_events. unproject. rewrite flat_map_comp.
    cbn [flat_map app]. apply flat_map_single. }
  destruct known_faces_loc as [loc|]; [|exact H].
  destruct (known_faces_of w (Some loc)) as [|p rest] eqn:E;
    [reflexivity | exact H].
Qed.

Lemma run_embed_calls :
  embed_calls tr
  = if valid_paths src dst
    then gallery_embed_calls w detect known_faces
         ++ map (fun f => (to_rgb f, detect (to_rgb f)))
                (filter (matching_ran detect perform_face_rec)
                        (delivered cap))
    else [].
Proof.
  by_validity src dst.
  destruct (setup_events_silent w src dst use_retinanet)
    as (_ & _ & H1 & _).
  project.
  rewrite H1, gallery_phase_embed, loop_events_embed.
  destruct profile; cbn [flat_map app]; rewrite ?app_nil_r; reflexivity.
Qed.

Lemma run_warnings :
  warnings tr
  = if valid_paths src dst
    then match known_faces_loc, known_faces with
         | Some _, [] => [no_faces_warning]
         | _, _ => []
         end
    else [].
Proof.
  by_validity src dst.
  destruct (setup_events_silent w src dst use_retinanet)
    as (_ & _ & _ & _ & H1 & _).
  destruct (loop_events_quiet detect perform_face_rec known cap)
    as (H3 & _).
  destruct (gallery_events_silent w detect known_faces)
    as (_ & _ & _ & H2 & _).
  project.
  rewrite H1, H3. unfold gallery_phase_events.
  destruct known_faces_loc as [loc|].
  - destruct (known_faces_of w (Some loc)) as [|p rest] eqn:E;
      rewrite ?H2; destruct profile; reflexivity.
  - rewrite H2. destruct profile; reflexivity.
Qed.

End Runs.

(** ** Validation (lines 35-36) *)

Lemma in_list_In (x : string) (l : list string) :
  PyStr.in_list x l = true <-> In x l.
Proof.
  induction l as [|y ys IH]; cbn [PyStr.in_list In].
  - split; [discriminate | contradiction].
  - rewrite orb_true_iff, IH, String.eqb_eq. split; intros [H|H]; auto.
Qed.

Lemma src_valid_iff (src : string) :
  src_valid src = true <-> In (PyStr.lower (extension src)) ["mov"; "mp4"].
Proof. apply in_list_In. Qed.

Lemma dst_valid_iff (dst : string) :
  dst_valid dst = true <-> PyStr.lower (extension dst) = "mp4".
Proof. apply String.eqb_eq. Qed.

(** ** The blur stage without match decisions *)

Lemma blur_from_none (method : string) (ksize : Z * Z) (sigma : Z) :
  forall regions i img,
    blur_from i img regions None method ksize sigma
    = fold_left (fun im r => obscure im r method ksize sigma) regions img.
Proof.
  induction regions as [|r rs IH]; intros i img; cbn [blur_from fold_left].
  - reflexivity.
  - apply IH.
Qed.

Lemma output_frame_without_gallery (detect : Frame -> list Region)
      (known : list Descriptor) (f : Frame) :
  output_frame detect false known f = anonymised_frame detect f.
Proof.
  unfold output_frame, anonymised_frame, decisions, blur_faces, blur_all.
  destruct (has_faces (detect (to_rgb f))).
  - rewrite blur_from_none. reflexivity.
  - apply to_rgb_round_trip.
Qed.

Lemma output_frame_without_faces (detect : Frame -> list Region)
      (perform_face_rec : bool) (known : list Descriptor) (f : Frame) :
  detect (to_rgb f) = [] ->
  output_frame detect perform_face_rec known f = f.
Proof.
  intros Hnone. unfold output_frame. rewrite Hnone. cbn [has_faces].
  apply to_rgb_round_trip.
Qed.

Lemma matching_needs_gallery (detect : Frame -> list Region)
      (frames : list Frame) :
  filter (matching_ran detect false) frames = [].
Proof.
  induction frames as [|f rest IH]; cbn [filter]; [reflexivity|].
  unfold matching_ran at 1. rewrite andb_false_r. exact IH.
Qed.

(** ** Profiling *)

Lemma recog_elapsed_length (detect : Frame -> list Region)
      (perform_face_rec : bool) :
  forall frames n,
    List.length (recog_elapsed detect perform_face_rec n frames)
    = List.length (filter (matching_ran detect perform_face_rec) frames).
Proof.
  induction frames as [|f rest IH]; intros n; cbn [recog_elapsed filter].
  - reflexivity.
  - destruct (matching_ran detect perform_face_rec f); cbn [List.length];
      rewrite IH; reflexivity.
Qed.

Lemma at_release_recog_times (w : World) (src dst : string)
      (known_faces_loc : option string) (use_retinanet : bool) :
  recog_times (at_release w src dst known_faces_loc use_retinanet true)
  = recog_elapsed (detect_fn use_retinanet)
                  (has_some (known_faces_of w known_faces_loc)) 1
                  (delivered (VideoCapture w src)).
Proof.
  unfold at_release, delivered.
  destruct (isOpened (VideoCapture w src)); cbn [emit recog_times].
  - rewrite after_frames_recog_times. reflexivity.
  - reflexivity.
Qed.

(** ** A gallery directory without reference images *)


Lemma run_without_faces (w : World) (src dst loc : string)
      (use_retinanet : bool) (batch_size : Z) (profile : bool) :
  valid_paths src dst = true ->
  known_faces_of w (Some loc) = [] ->
  let tr := trace_of (anonymize_vid w src dst (Some loc) use_retinanet
                                    batch_size profile) in
  warnings tr = [no_faces_warning]
  /\ recognize_calls tr = []
  /\ embed_calls tr = []
  /\ frames_written tr
     = map (anonymised_frame (detect_fn use_retinanet))
           (delivered (VideoCapture w src)).
Proof.
  intros Hvalid Hnone. cbv zeta.
  rewrite run_warnings, run_recognize_calls, run_embed_calls,
    run_frames_written, Hvalid, Hnone.
  cbn [has_some]. rewrite matching_needs_gallery.
  repeat split.
  apply map_ext. intros f. apply output_frame_without_gallery.
Qed.

(** ** The paths [rglob] yields *)





(** * The claims *)

(** Supporting fact for C1: whatever the gallery directory holds, every
    call of the matcher is given [gallery_of], the encodings of the one
    image that was processed last. *)
Lemma matcher_sees_last_image_only (w : World) (src dst : string)
      (known_faces_loc : option string) (use_retinanet : bool)
      (batch_size : Z) (profile : bool) :
  let detect := detect_fn use_retinanet in
  let known_faces := known_faces_of w known_faces_loc in
  let last_rgb := rgb_read w (List.last known_faces "") in
  Forall (fun call => snd call = embed_face last_rgb (detect last_rgb))
         (recognize_calls
            (trace_of (anonymize_vid w src dst known_faces_loc use_retinanet
                                     batch_size profile))).
Proof.
  cbv zeta. rewrite run_recognize_calls.
  destruct (valid_paths src dst); [|constructor].
  apply Forall_forall. intros call Hcall.
  apply in_map_iff in Hcall as (f & <- & Hf).
  apply filter_In in Hf as [_ Hran]. cbn [snd].
  unfold matching_ran in Hran. apply andb_true_iff in Hran as [_ Hsome].
  unfold gallery_of.
  destruct (known_faces_of w known_faces_loc); [discriminate|reflexivity].
Qed.

(** Supporting fact for C2: inside the loop the embedder is only ever
    called on a non-empty list of regions (the guard of line 94). *)
Lemma loop_embeds_detected_faces (detect : Frame -> list Region)
      (perform_face_rec : bool) (known : list Descriptor) (cap : Capture) :
  Forall (fun call => snd call <> [])
         (embed_calls (loop_events detect perform_face_rec known cap)).
Proof.
  rewrite loop_events_embed. apply Forall_forall. intros call Hcall.
  apply in_map_iff in Hcall as (f & <- & Hf).
  apply filter_In in Hf as [_ Hran]. cbn [snd].
  unfold matching_ran in Hran. apply andb_true_iff in Hran as [Hfaces _].
  destruct (detect (to_rgb f)); [discriminate|discriminate].
Qed.

(** Supporting fact for C3: the only resource a run ever releases is the
    frame source; no run releases the frame sink. *)
Lemma frame_sink_never_released (w : World) (src dst : string)
      (known_faces_loc : option string) (use_retinanet : bool)
      (batch_size : Z) (profile : bool) :
  ~ In FrameSink
       (released
          (trace_of (anonymize_vid w src dst known_faces_loc use_retinanet
                                   batch_size profile))).
Proof.
  rewrite run_released.
  destruct (valid_paths src dst); cbn [In]; intuition discriminate.
Qed.

(** C4 — For every input video the frames written to the sink are, one for
    one and in the same order, the processed versions of the frames read
    from the source: the two sequences have the same length, and the
    [i]-th frame written is the output of the [i]-th frame read. The
    frames read are the frames the capture delivers whenever the
    invocation passes validation. *)
Theorem every_frame_read_is_written_once_in_order
        (w : World) (src dst : string) (known_faces_loc : option string)
        (use_retinanet : bool) (batch_size : Z) (profile : bool) :
  let detect := detect_fn use_retinanet in
  let known_faces := known_faces_of w known_faces_loc in
  let tr := trace_of (anonymize_vid w src dst known_faces_loc use_retinanet
                                    batch_size profile) in
  frames_read tr
  = (if valid_paths src dst then delivered (VideoCapture w src) else [])
  /\ frames_written tr
     = map (output_frame detect (has_some known_faces)
                         (gallery_of w detect known_faces))
           (frames_read tr)
  /\ List.length (frames_written tr) = List.length (frames_read tr).
Proof.
  cbv zeta. rewrite run_frames_read, run_frames_written.
  destruct (valid_paths src dst); repeat split.
  apply length_map.
Qed.

(** C5 (as amended) — When the extension of [src], lower-cased, is neither
    [mov] nor [mp4], or the extension of [dst], lower-cased, is not [mp4],
    the run fails with an assertion error before anything is done: the
    trace is empty, so no frame is read, no directory is created and no
    output file is opened. The extension is what follows the last dot. *)
Theorem bad_extension_aborts_before_any_effect
        (w : World) (src dst : string) (known_faces_loc : option string)
        (use_retinanet : bool) (batch_size : Z) (profile : bool) :
  ~ In (PyStr.lower (extension src)) ["mov"; "mp4"]
  \/ PyStr.lower (extension dst) <> "mp4" ->
  exists msg,
    anonymize_vid w src dst known_faces_loc use_retinanet batch_size profile
    = Raised (AssertionError msg) initial
    /\ trace initial = [].
Proof.
  intros Hbad. rewrite anonymize_vid_spec.
  destruct (src_valid src) eqn:Hsrc; cbn [negb].
  - destruct (dst_valid dst) eqn:Hdst; cbn [negb].
    + exfalso. destruct Hbad as [Hbad|Hbad]; apply Hbad.
      * apply src_valid_iff. exact Hsrc.
      * apply dst_valid_iff. exact Hdst.
    + eexists. split; reflexivity.
  - eexists. split; reflexivity.
Qed.

(** C6 — When both paths are valid and the gallery directory holds no
    eligible image, the run returns normally, emits the warning once,
    never calls the embedder or the matcher, and writes for every frame
    the frame with every detected region obscured (frames without faces
    unchanged). *)
Theorem gallery_without_images_blurs_every_face
        (w : World) (src dst loc : string) (use_retinanet : bool)
        (batch_size : Z) (profile : bool) :
  valid_paths src dst = true ->
  rglob_jpg loc (scandir w loc) = [] ->
  exists st,
    anonymize_vid w src dst (Some loc) use_retinanet batch_size profile
    = Returned st
    /\ warnings (trace st) = [no_faces_warning]
    /\ recognize_calls (trace st) = []
    /\ embed_calls (trace st) = []
    /\ frames_written (trace st)
       = map (anonymised_frame (detect_fn use_retinanet))
             (delivered (VideoCapture w src)).
Proof.
  intros Hvalid Hnone.
  pose proof (run_without_faces w src dst loc use_retinanet batch_size
                                profile Hvalid Hnone) as Hrun.
  cbv zeta in Hrun. revert Hrun.
  rewrite anonymize_vid_spec.
  unfold valid_paths in Hvalid.
  apply andb_true_iff in Hvalid as [Hsrc Hdst].
  rewrite Hsrc, Hdst. cbn [negb]. cbv zeta.
  unfold trace_of. cbn [locals_of]. intros Hrun.
  eexists. split; [reflexivity | exact Hrun].
Qed.

(** C7 — A frame on which the detector finds no face is written exactly as
    it was read: the conversion to RGB and back is the identity and nothing
    is drawn or blurred. Hence a video without a face in any frame is
    written frame for frame as it was read. *)
Theorem frame_without_faces_is_written_unchanged
        (w : World) (src dst : string) (known_faces_loc : option string)
        (use_retinanet : bool) (batch_size : Z) (profile : bool) :
  let tr := trace_of (anonymize_vid w src dst known_faces_loc use_retinanet
                                    batch_size profile) in
  (forall i f,
      nth_error (frames_read tr) i = Some f ->
      detect_fn use_retinanet (to_rgb f) = [] ->
      nth_error (frames_written tr) i = Some f)
  /\ ((forall f, In f (frames_read tr) ->
                 detect_fn use_retinanet (to_rgb f) = []) ->
      frames_written tr = frames_read tr).
Proof.
  cbv zeta. rewrite run_frames_read, run_frames_written.
  destruct (valid_paths src dst).
  - split.
    + intros i f Hread Hnone.
      rewrite nth_error_map, Hread. cbn [option_map].
      rewrite output_frame_without_faces by exact Hnone. reflexivity.
    + intros Hnone.
      rewrite <- (map_id (delivered (VideoCapture w src))) at 2.
      apply map_ext_in. intros f Hf.
      apply output_frame_without_faces, Hnone, Hf.
  - split; [intros [|i] f Hread; discriminate | reflexivity].
Qed.

(** C8 — With profiling on and valid paths, the recognition accumulator
    holds one entry per frame on which matching ran and none for the
    others: its entries are the differences of the two clock readings
    taken around the matching of those frames, as many as there are such
    frames and as there are calls of the matcher. The recognition line of
    the summary reports the mean of that accumulator, its length and the
    reciprocal of the mean. *)
Theorem recognition_timing_counts_matched_frames_only
        (w : World) (src dst : string) (known_faces_loc : option string)
        (use_retinanet : bool) (batch_size : Z) :
  valid_paths src dst = true ->
  let detect := detect_fn use_retinanet in
  let perform_face_rec := has_some (known_faces_of w known_faces_loc) in
  let frames := delivered (VideoCapture w src) in
  exists st,
    anonymize_vid w src dst known_faces_loc use_retinanet batch_size true
    = Returned st
    /\ recog_times st = recog_elapsed detect perform_face_rec 1 frames
    /\ List.length (recog_times st)
       = List.length (filter (matching_ran detect perform_face_rec) frames)
    /\ List.length (recog_times st)
       = List.length (recognize_calls (trace st))
    /\ In (RecognitionLine (np_mean (recog_times st))
                           (List.length (recog_times st))
                           (fdiv (of_int 1) (np_mean (recog_times st))))
          (printed (trace st)).
Proof.
  intros Hvalid. cbv zeta.
  pose proof (run_recognize_calls w src dst known_faces_loc use_retinanet
                                  batch_size true) as Hcalls.
  rewrite Hvalid in Hcalls. revert Hcalls.
  rewrite anonymize_vid_spec.
  unfold valid_paths in Hvalid.
  apply andb_true_iff in Hvalid as [Hsrc Hdst].
  rewrite Hsrc, Hdst. cbn [negb]. cbv zeta.
  unfold trace_of. cbn [locals_of]. intros Hcalls.
  eexists. split; [reflexivity|].
  rewrite summarize_recog_times, at_release_recog_times.
  repeat split.
  - apply recog_elapsed_length.
  - rewrite Hcalls, length_map. apply recog_elapsed_length.
  - rewrite summarize_trace, printed_app.
    apply in_or_app. right. unfold summary_events.
    rewrite at_release_recog_times. cbn. auto.
Qed.

(** C9 — Two runs that differ only in [batch_size] have the same outcome,
    and so write the same frames: the argument is never looked at. *)
Theorem batch_size_has_no_effect
        (w : World) (src dst : string) (known_faces_loc : option string)
        (use_retinanet : bool) (batch_size batch_size' : Z)
        (profile : bool) :
  anonymize_vid w src dst known_faces_loc use_retinanet batch_size profile
  = anonymize_vid w src dst known_faces_loc use_retinanet batch_size' profile
  /\ frames_written
       (trace_of (anonymize_vid w src dst known_faces_loc use_retinanet
                                batch_size profile))
     = frames_written
         (trace_of (anonymize_vid w src dst known_faces_loc use_retinanet
                                  batch_size' profile)).
Proof. split; reflexivity. Qed.

End Properties.

(** * The claims on a concrete run

    The runs below take place in [Demo.world]: the clip [in.mp4] has three
    one-pixel frames showing person 7, nobody, and person 9; the directory
    [faces] holds a picture of person 7 ([a.jpg]) and one of person 9
    ([b.jpg]); [noface] holds one picture without a face; [others] holds
    only files that are not named [*.jpg]. *)

(** C1 — The gallery directory [faces] holds two eligible images, and both
    are read and embedded, yet the matcher is called with the encodings of
    [b.jpg] alone: line 72 binds [recognized_face_encs] anew for every
    image. Person 7, who is in the gallery directory, is not recognised
    and is blurred. *)
Theorem gallery_of_two_images_keeps_only_the_last :
  let run := Demo.run "in.mp4" "out/x.mp4" (Some "faces") false 1%Z false in
  known_faces_of Demo.world (Some "faces") = ["faces/a.jpg"; "faces/b.jpg"]
  /\ gallery_embed_calls (C := Demo.models) Demo.world
                         (detect_fn (C := Demo.models) false)
                         ["faces/a.jpg"; "faces/b.jpg"]
     = [(Demo.face 7, [7%Z]); (Demo.face 9, [9%Z])]
  /\ recognize_calls (trace_of run) = [([7%Z], [9%Z]); ([9%Z], [9%Z])]
  /\ nth_error (frames_written (trace_of run)) 0
     = Some [[mkPixel 0 7 0]].
Proof. cbv zeta. repeat split; reflexivity. Qed.

(** C2 — The one reference image of the directory [noface] shows no face:
    the detector returns no region for it, and line 72 calls the embedder
    on that empty list all the same. *)
Theorem embedder_is_called_on_a_faceless_reference_image :
  let run := Demo.run "in.mp4" "out/x.mp4" (Some "noface") false 1%Z false in
  known_faces_of Demo.world (Some "noface") = ["noface/blank.jpg"]
  /\ detect_fn (C := Demo.models) false
               (rgb_read Demo.world "noface/blank.jpg") = []
  /\ nth_error (embed_calls (trace_of run)) 0 = Some (Demo.blank, [])
  /\ exists st, run = Returned st.
Proof. cbv zeta. repeat split; try reflexivity. eexists. reflexivity. Qed.

(** C3 — A run over [in.mp4] reaches the end of the stream and returns
    with the writer opened and the frame source released; the frame sink
    is not released: there is no [out.release()] next to the
    [cap.release()] of line 115. *)
Theorem frame_sink_is_left_unreleased :
  let run := Demo.run "in.mp4" "out/x.mp4" None false 1%Z false in
  (exists st, run = Returned st)
  /\ In (OpenWriter "out/x.mp4" 30 1 1) (trace_of run)
  /\ In (Read None) (trace_of run)
  /\ released (trace_of run) = [FrameSource]
  /\ ~ In FrameSink (released (trace_of run)).
Proof.
  cbv zeta. split; [eexists; reflexivity|].
  repeat split; try reflexivity.
  - vm_compute. tauto.
  - vm_compute. tauto.
  - vm_compute. intuition discriminate.
Qed.

(** C5, the claim as it is worded — The extension of [out/x.MP4] is [MP4],
    which is not [mp4]; the run does not fail: line 36 lower-cases the
    extension before comparing. The run creates the directory, opens the
    output file and reads the frames. *)
Lemma upper_case_mp4_destination_is_accepted :
  let run := Demo.run "in.mp4" "out/x.MP4" None false 1%Z false in
  extension "out/x.MP4" = "MP4"
  /\ extension "out/x.MP4" <> "mp4"
  /\ (exists st, run = Returned st)
  /\ In (Mkdir "out") (trace_of run)
  /\ In (OpenWriter "out/x.MP4" 30 1 1) (trace_of run)
  /\ List.length (frames_read (trace_of run)) = 3.
Proof.
  cbv zeta. split; [reflexivity|].
  split; [vm_compute; discriminate|].
  split; [eexists; reflexivity|].
  repeat split; try reflexivity; vm_compute; tauto.
Qed.

Lemma bad_extension_aborts_witness :
  (~ In (PyStr.lower (extension "clip.avi")) ["mov"; "mp4"]
   \/ PyStr.lower (extension "out/x.mp4") <> "mp4")
  /\ exists msg,
      Demo.run "clip.avi" "out/x.mp4" (Some "faces") true 1%Z true
      = Raised (AssertionError msg) initial
      /\ trace (initial (C := Demo.models)) = [].
Proof.
  split.
  - left. vm_compute. intuition discriminate.
  - apply (bad_extension_aborts_before_any_effect
             (C := Demo.models) Demo.world "clip.avi" "out/x.mp4"
             (Some "faces") true 1%Z true).
    left. vm_compute. intuition discriminate.
Defined.

Lemma gallery_without_images_witness :
  valid_paths "in.mp4" "out/x.mp4" = true
  /\ rglob_jpg "others" (scandir Demo.world "others") = []
  /\ exists st,
      Demo.run "in.mp4" "out/x.mp4" (Some "others") false 1%Z false
      = Returned st
      /\ warnings (trace st) = [no_faces_warning]
      /\ recognize_calls (trace st) = []
      /\ embed_calls (trace st) = []
      /\ frames_written (trace st)
         = map (anonymised_frame (C := Demo.models)
                                 (detect_fn (C := Demo.models) false))
               (delivered (VideoCapture Demo.world "in.mp4")).
Proof.
  split; [reflexivity|]. split; [reflexivity|].
  apply (gallery_without_images_blurs_every_face
           (C := Demo.models) Demo.world "in.mp4" "out/x.mp4" "others"
           false 1%Z false); reflexivity.
Defined.

Lemma frame_without_faces_witness :
  let tr := trace_of (Demo.run "in.mp4" "out/x.mp4" (Some "faces")
                               false 1%Z false) in
  nth_error (frames_read tr) 1 = Some Demo.blank
  /\ detect_fn (C := Demo.models) false (to_rgb Demo.blank) = []
  /\ nth_error (frames_written tr) 1 = Some Demo.blank.
Proof.
  cbv zeta. split; [reflexivity|]. split; [reflexivity|].
  apply (proj1 (frame_without_faces_is_written_unchanged
                  (C := Demo.models) Demo.world "in.mp4" "out/x.mp4"
                  (Some "faces") false 1%Z false));
    reflexivity.
Defined.

Lemma recognition_timing_witness :
  valid_paths "in.mp4" "out/x.mp4" = true
  /\ exists st,
      Demo.run "in.mp4" "out/x.mp4" (Some "faces") false 1%Z true
      = Returned st
      /\ recog_times st
         = recog_elapsed (C := Demo.models)
                         (detect_fn (C := Demo.models) false)
                         (has_some (known_faces_of Demo.world (Some "faces")))
                         1 (delivered (VideoCapture Demo.world "in.mp4"))
      /\ List.length (recog_times st)
         = List.length
             (filter (matching_ran
                        (C := Demo.models)
                        (detect_fn (C := Demo.models) false)
                        (has_some (known_faces_of Demo.world (Some "faces"))))
                     (delivered (VideoCapture Demo.world "in.mp4")))
      /\ List.length (recog_times st)
         = List.length (recognize_calls (trace st))
      /\ In (RecognitionLine (np_mean (recog_times st))
                             (List.length (recog_times st))
                             (fdiv (of_int 1) (np_mean (recog_times st))))
            (printed (trace st)).
Proof.
  split; [reflexivity|].
  apply (recognition_timing_counts_matched_frames_only
           (C := Demo.models) Demo.world "in.mp4" "out/x.mp4"
           (Some "faces") false 1%Z).
  reflexivity.
Defined.

(** The search descends into sub-directories, and the match is
    case-sensitive. *)
Example rglob_descends :
  rglob_jpg "gallery"
            [File "a.jpg"; File "B.JPG";
             Dir "team" [File "c.jpg"; Dir "old" [File "d.jpg"; File "e.png"]]]
  = ["gallery/a.jpg"; "gallery/team/c.jpg"; "gallery/team/old/d.jpg"].
Proof. reflexivity. Qed.

Example extension_examples :
  extension "clip.MOV" = "MOV" /\ PyStr.lower (extension "clip.MOV") = "mov"
  /\ extension "archive.tar.mp4" = "mp4" /\ extension "mp4" = "mp4".
Proof. repeat split; reflexivity. Qed.

(** * Further properties *)

(** ** Splitting a path at its dots (lines 35-36) *)

Lemma split_not_nil (sep : ascii) (s : string) : PyStr.split sep s <> [].
Proof.
  destruct s as [|c rest]; cbn [PyStr.split]; [discriminate|].
  destruct (Ascii.eqb c sep); [discriminate|].
  destruct (PyStr.split sep rest); discriminate.
Qed.

Lemma join_cons (sep : ascii) (x : string) (xs : list string) :
  xs <> [] ->
  join sep (x :: xs) = (x ++ String sep (join sep xs))%string.
Proof.
  intros Hxs. unfold join. destruct xs as [|y ys]; [contradiction|].
  reflexivity.
Qed.

Lemma split_pieces (sep : ascii) (s : string) :
  join sep (PyStr.split sep s) = s
  /\ Forall (fun piece => has_char sep piece = false) (PyStr.split sep s).
Proof.
  induction s as [|c rest [IHjoin IHpieces]]; cbn [PyStr.split].
  - split; [reflexivity | repeat constructor].
  - destruct (Ascii.eqb c sep) eqn:Hc.
    + apply Ascii.eqb_eq in Hc. subst c. split.
      * rewrite join_cons by apply split_not_nil. rewrite IHjoin. reflexivity.
      * constructor; [reflexivity | exact IHpieces].
    + pose proof (split_not_nil sep rest) as Hne.
      destruct (PyStr.split sep rest) as [|piece pieces]; [contradiction|].
      inversion IHpieces as [|? ? Hpiece Hrest]; subst. split.
      * destruct pieces as [|q qs].
        -- reflexivity.
        -- rewrite !join_cons by discriminate. reflexivity.
      * constructor; [|exact Hrest].
        cbn [has_char]. rewrite Hc, Hpiece. reflexivity.
Qed.

Lemma split_without_sep (sep : ascii) (s : string) :
  has_char sep s = false -> PyStr.split sep s = [s].
Proof.
  induction s as [|c rest IH]; cbn [has_char PyStr.split]; [reflexivity|].
  intros H. apply orb_false_iff in H as [Hc Hrest].
  rewrite Hc, (IH Hrest). reflexivity.
Qed.

Lemma append_assoc (a b c : string) :
  ((a ++ b) ++ c = a ++ (b ++ c))%string.
Proof.
  induction a as [|x a IH]; cbn [String.append]; [reflexivity|].
  rewrite IH. reflexivity.
Qed.

Lemma join_ends_with_last (sep : ascii) (l : list string) :
  l <> [] ->
  join sep l = List.last l EmptyString
  \/ exists base,
      join sep l = (base ++ String sep (List.last l EmptyString))%string.
Proof.
  induction l as [|x xs IH]; intros Hl; [contradiction|].
  destruct xs as [|y ys]; [left; reflexivity|].
  right. rewrite join_cons by discriminate.
  change (List.last (x :: y :: ys) EmptyString)
    with (List.last (y :: ys) EmptyString).
  destruct IH as [IH | [base IH]]; [discriminate | |]; rewrite IH.
  - exists x. reflexivity.
  - exists (x ++ String sep base)%string.
    rewrite append_assoc. reflexivity.
Qed.

Lemma last_in {A : Type} (l : list A) (d : A) : l <> [] -> In (List.last l d) l.
Proof.
  induction l as [|x xs IH]; intros Hl; [contradiction|].
  destruct xs as [|y ys]; [left; reflexivity|].
  right. apply IH. discriminate.
Qed.

(** X1: [split] loses nothing and cuts at every separator: joining the
    pieces of [s.split(sep)] with [sep] gives [s] back, there is at least
    one piece, and no piece contains the separator. *)
Theorem join_split_round_trip (sep : ascii) (s : string) :
  join sep (PyStr.split sep s) = s
  /\ PyStr.split sep s <> []
  /\ Forall (fun piece => has_char sep piece = false) (PyStr.split sep s).
Proof.
  destruct (split_pieces sep s) as [Hjoin Hpieces].
  repeat split; [exact Hjoin | apply split_not_nil | exact Hpieces].
Qed.

(** X2: what lines 35-36 take for the extension of a path never contains
    a dot. A path with a dot ends in a dot followed by its extension; a path
    without a dot is, as a whole, its own extension. *)
Theorem extension_is_the_text_after_the_last_dot (path : string) :
  has_char "."%char (extension path) = false
  /\ if has_char "."%char path
     then exists base, path = (base ++ String "."%char (extension path))%string
     else extension path = path.
Proof.
  unfold extension, PyStr.last_item.
  destruct (split_pieces "."%char path) as [Hjoin Hpieces].
  pose proof (split_not_nil "."%char path) as Hne.
  assert (Hlast : has_char "."%char
                    (List.last (PyStr.split "."%char path) EmptyString)
                  = false).
  { rewrite Forall_forall in Hpieces. apply Hpieces, last_in, Hne. }
  split; [exact Hlast|].
  destruct (has_char "."%char path) eqn:Hdot.
  - destruct (join_ends_with_last "."%char _ Hne) as [H | [base H]].
    + rewrite Hjoin in H. rewrite <- H in Hlast. congruence.
    + exists base. rewrite <- H. symmetry. exact Hjoin.
  - rewrite (split_without_sep _ _ Hdot). reflexivity.
Qed.

(** ** Lower-casing (lines 35-36) *)

Lemma lower_char_dot (c : ascii) :
  Ascii.eqb (PyStr.lower_char c) "."%char = Ascii.eqb c "."%char.
Proof.
  destruct c as [[] [] [] [] [] [] [] []]; vm_compute; reflexivity.
Qed.

Lemma split_lower (s : string) :
  PyStr.split "."%char (PyStr.lower s)
  = map PyStr.lower (PyStr.split "."%char s).
Proof.
  induction s as [|c rest IH]; cbn [PyStr.lower PyStr.split]; [reflexivity|].
  rewrite lower_char_dot, IH.
  destruct (Ascii.eqb c "."%char); [reflexivity|].
  destruct (PyStr.split "."%char rest); reflexivity.
Qed.

Lemma last_map_lower (l : list string) :
  List.last (map PyStr.lower l) EmptyString
  = PyStr.lower (List.last l EmptyString).
Proof.
  induction l as [|x xs IH]; [reflexivity|].
  destruct xs as [|y ys]; [reflexivity|]. exact IH.
Qed.

Lemma extension_lower (path : string) :
  extension (PyStr.lower path) = PyStr.lower (extension path).
Proof.
  unfold extension, PyStr.last_item.
  rewrite split_lower. apply last_map_lower.
Qed.

Lemma eq_ignoring_ascii_case_lower (p : string) :
  forall q,
    eq_ignoring_ascii_case p q = true -> PyStr.lower p = PyStr.lower q.
Proof.
  induction p as [|a p IH]; intros [|b q]; cbn [eq_ignoring_ascii_case];
    try discriminate; [reflexivity|].
  intros H. apply andb_true_iff in H as [Hab Hpq].
  apply Ascii.eqb_eq in Hab. cbn [PyStr.lower].
  rewrite Hab, (IH q Hpq). reflexivity.
Qed.

(** X3: the two assertions of lines 35-36 do not look at the case of the
    letters A-Z: two paths that are the same up to the case of those
    letters are accepted or rejected together, as source and as
    destination. *)
Theorem validation_ignores_the_case_of_ascii_letters (p q : string) :
  eq_ignoring_ascii_case p q = true ->
  src_valid p = src_valid q /\ dst_valid p = dst_valid q.
Proof.
  intros Hpq. apply eq_ignoring_ascii_case_lower in Hpq.
  assert (H : PyStr.lower (extension p) = PyStr.lower (extension q)).
  { rewrite <- !extension_lower, Hpq. reflexivity. }
  unfold src_valid, dst_valid. rewrite H. split; reflexivity.
Qed.

(** X4: every path that line 36 accepts as destination is one that line
    35 accepts as source. In particular the two assertions do not keep a
    run from being given its own source as destination. *)
Theorem a_valid_destination_is_a_valid_source (path : string) :
  dst_valid path = true ->
  src_valid path = true /\ valid_paths path path = true.
Proof.
  unfold valid_paths, src_valid, dst_valid. intros H.
  apply String.eqb_eq in H. rewrite H. split; reflexivity.
Qed.

(** ** Counting what [rglob] yields (line 63) *)





(** ** Runs, phase by phase *)

Section FurtherRuns.

Context {C : Collaborators}.
Local Open Scope list_scope.

Lemma filter_flat_map_nil {A B : Type} (p : B -> bool) (g : A -> list B)
      (l : list A) :
  (forall x, filter p (g x) = []) -> filter p (flat_map g l) = [].
Proof.
  intros H. induction l as [|x xs IH]; cbn [flat_map]; [reflexivity|].
  rewrite filter_app, H, IH. reflexivity.
Qed.

(** An invocation that passes the assertions returns. *)
Lemma valid_run_returns (w : World) (src dst : string)
      (known_faces_loc : option string) (use_retinanet : bool)
      (batch_size : Z) (profile : bool) :
  valid_paths src dst = true ->
  anonymize_vid w src dst known_faces_loc use_retinanet batch_size profile
  = Returned
      (if profile
       then summarize (VideoCapture w src) (time_time 0)
                      (at_release w src dst known_faces_loc use_retinanet
                                  profile)
       else at_release w src dst known_faces_loc use_retinanet profile).
Proof.
  unfold valid_paths. intros Hvalid.
  apply andb_true_iff in Hvalid as [Hsrc Hdst].
  rewrite anonymize_vid_spec, Hsrc, Hdst. reflexivity.
Qed.

(** *** The set-up events *)

Lemma frame_events_setup (detect : Frame -> list Region)
      (perform_face_rec : bool) (known : list Descriptor) (f : Frame) :
  filter is_setup (frame_events detect perform_face_rec known f) = [].
Proof.
  unfold frame_events, matching_events.
  destruct (matching_ran detect perform_face_rec f); reflexivity.
Qed.

Lemma gallery_phase_setup (w : World) (detect : Frame -> list Region)
      (known_faces_loc : option string) :
  filter is_setup (gallery_phase_events w detect known_faces_loc) = [].
Proof.
  assert (H : forall l, filter is_setup (gallery_events w detect l) = []).
  { intros l. unfold gallery_events. apply filter_flat_map_nil.
    reflexivity. }
  unfold gallery_phase_events.
  destruct known_faces_loc as [loc|]; [|apply H].
  destruct (known_faces_of w (Some loc)) as [|p rest];
    [reflexivity | apply H].
Qed.

Lemma loop_events_setup (detect : Frame -> list Region)
      (perform_face_rec : bool) (known : list Descriptor) (cap : Capture) :
  filter is_setup (loop_events detect perform_face_rec known cap) = [].
Proof.
  unfold loop_events. destruct (isOpened cap); [|reflexivity].
  rewrite filter_app, filter_flat_map_nil; [reflexivity|].
  intros f. apply frame_events_setup.
Qed.

(** *** The events on the two video streams *)

Lemma io_events_app (a b : list Event) :
  io_events (a ++ b) = io_events a ++ io_events b.
Proof. apply filter_app. Qed.

Lemma frame_events_io (detect : Frame -> list Region)
      (perform_face_rec : bool) (known : list Descriptor) (f : Frame) :
  io_events (frame_events detect perform_face_rec known f)
  = [Read (Some f); Write (output_frame detect perform_face_rec known f)].
Proof.
  unfold frame_events, matching_events.
  destruct (matching_ran detect perform_face_rec f); reflexivity.
Qed.

Lemma setup_events_io (w : World) (src dst : string) (use_retinanet : bool) :
  io_events (setup_events w src dst use_retinanet) = [].
Proof. destruct use_retinanet; reflexivity. Qed.

Lemma gallery_phase_io (w : World) (detect : Frame -> list Region)
      (known_faces_loc : option string) :
  io_events (gallery_phase_events w detect known_faces_loc) = [].
Proof.
  assert (H : forall l, io_events (gallery_events w detect l) = []).
  { intros l. unfold gallery_events. apply filter_flat_map_nil.
    reflexivity. }
  unfold gallery_phase_events.
  destruct known_faces_loc as [loc|]; [|apply H].
  destruct (known_faces_of w (Some loc)) as [|p rest];
    [reflexivity | apply H].
Qed.

Lemma loop_events_io (detect : Frame -> list Region)
      (perform_face_rec : bool) (known : list Descriptor) (cap : Capture) :
  io_events (loop_events detect perform_face_rec known cap)
  = flat_map (fun f => [Read (Some f);
                        Write (output_frame detect perform_face_rec known f)])
             (delivered cap)
    ++ (if isOpened cap then [Read None] else []).
Proof.
  unfold loop_events, delivered.
  destruct (isOpened cap); [|reflexivity].
  rewrite io_events_app. f_equal.
  induction (stream cap) as [|f rest IH]; cbn [flat_map]; [reflexivity|].
  rewrite io_events_app, frame_events_io, IH. reflexivity.
Qed.

Lemma run_io_events (w : World) (src dst : string)
      (known_faces_loc : option string) (use_retinanet : bool)
      (batch_size : Z) (profile : bool) :
  valid_paths src dst = true ->
  let detect := detect_fn use_retinanet in
  let known_faces := known_faces_of w known_faces_loc in
  io_events (trace_of (anonymize_vid w src dst known_faces_loc use_retinanet
                                     batch_size profile))
  = flat_map (fun f => [Read (Some f);
                        Write (output_frame detect (has_some known_faces)
                                            (gallery_of w detect known_faces)
                                            f)])
             (delivered (VideoCapture w src))
    ++ (if isOpened (VideoCapture w src) then [Read None] else []).
Proof.
  intros Hvalid. cbv zeta.
  rewrite (valid_run_trace w src dst known_faces_loc use_retinanet
                           batch_size profile Hvalid).
  cbv zeta.
  rewrite !io_events_app, setup_events_io, gallery_phase_io, loop_events_io.
  destruct profile; cbn [io_events filter is_io app];
    rewrite ?app_nil_r; reflexivity.
Qed.

(** *** The reference images read *)

Lemma image_reads_app (a b : list Event) :
  image_reads (a ++ b) = image_reads a ++ image_reads b.
Proof. apply flat_map_app. Qed.

Lemma gallery_events_reads (w : World) (detect : Frame -> list Region)
      (known_faces : list string) :
  image_reads (gallery_events w detect known_faces) = known_faces.
Proof.
  unfold image_reads, gallery_events. rewrite flat_map_comp.
  cbn [flat_map app].
  rewrite (flat_map_single (fun p => p)). apply map_id.
Qed.

Lemma gallery_phase_reads (w : World) (detect : Frame -> list Region)
      (known_faces_loc : option string) :
  image_reads (gallery_phase_events w detect known_faces_loc)
  = known_faces_of w known_faces_loc.
Proof.
  unfold gallery_phase_events.
  destruct known_faces_loc as [loc|]; [|apply gallery_events_reads].
  destruct (known_faces_of w (Some loc)) as [|p rest] eqn:E;
    [reflexivity | apply gallery_events_reads].
Qed.

Lemma loop_events_reads (detect : Frame -> list Region)
      (perform_face_rec : bool) (known : list Descriptor) (cap : Capture) :
  image_reads (loop_events detect perform_face_rec known cap) = [].
Proof.
  unfold loop_events. destruct (isOpened cap); [|reflexivity].
  rewrite image_reads_app. unfold image_reads at 1.
  rewrite flat_map_comp, flat_map_nil; [reflexivity|].
  apply Forall_forall. intros f _.
  unfold frame_events, matching_events.
  destruct (matching_ran detect perform_face_rec f); reflexivity.
Qed.

Lemma run_image_reads (w : World) (src dst : string)
      (known_faces_loc : option string) (use_retinanet : bool)
      (batch_size : Z) (profile : bool) :
  valid_paths src dst = true ->
  image_reads (trace_of (anonymize_vid w src dst known_faces_loc
                                       use_retinanet batch_size profile))
  = known_faces_of w known_faces_loc.
Proof.
  intros Hvalid.
  rewrite (valid_run_trace w src dst known_faces_loc use_retinanet
                           batch_size profile Hvalid).
  cbv zeta.
  rewrite !image_reads_app, gallery_phase_reads, loop_events_reads.
  assert (Hsetup : image_reads (setup_events w src dst use_retinanet) = []).
  { destruct use_retinanet; reflexivity. }
  rewrite Hsetup.
  destruct profile; cbn [image_reads flat_map app];
    rewrite ?app_nil_r; reflexivity.
Qed.

(** *** The clock and the collectors *)

Lemma detect_elapsed_length (detect : Frame -> list Region)
      (perform_face_rec : bool) :
  forall frames n,
    List.length (detect_elapsed detect perform_face_rec n frames)
    = List.length frames.
Proof.
  induction frames as [|f rest IH]; intros n;
    cbn [detect_elapsed List.length]; [reflexivity|].
  rewrite IH. reflexivity.
Qed.

Lemma after_frames_detect_times (detect : Frame -> list Region)
      (perform_face_rec : bool) (known : list Descriptor) :
  forall frames st,
    detect_times (after_frames detect perform_face_rec known true frames st)
    = detect_times st
      ++ detect_elapsed detect perform_face_rec (ticks st) frames.
Proof.
  induction frames as [|f rest IH]; intros st;
    cbn [after_frames detect_elapsed].
  - rewrite app_nil_r. reflexivity.
  - rewrite IH. cbn [after_frame detect_times ticks].
    rewrite <- app_assoc. reflexivity.
Qed.

Lemma after_frames_ticks (detect : Frame -> list Region)
      (perform_face_rec : bool) (known : list Descriptor) :
  forall frames st,
    ticks (after_frames detect perform_face_rec known true frames st)
    = ticks st + 2 * List.length frames
      + 2 * List.length (matched_frames detect perform_face_rec frames).
Proof.
  unfold matched_frames.
  induction frames as [|f rest IH]; intros st;
    cbn [after_frames filter List.length]; [lia|].
  rewrite IH. cbn [after_frame ticks].
  destruct (matching_ran detect perform_face_rec f); cbn [List.length]; lia.
Qed.

Lemma after_frames_clock_off (detect : Frame -> list Region)
      (perform_face_rec : bool) (known : list Descriptor) :
  forall frames st,
    ticks (after_frames detect perform_face_rec known false frames st)
    = ticks st
    /\ detect_times (after_frames detect perform_face_rec known false
                                  frames st)
       = detect_times st.
Proof.
  induction frames as [|f rest IH]; intros st; cbn [after_frames].
  - split; reflexivity.
  - destruct (IH (after_frame detect perform_face_rec known false f st))
      as [Hticks Htimes].
    rewrite Hticks, Htimes. cbn [after_frame ticks detect_times].
    rewrite app_nil_r. split; reflexivity.
Qed.

Lemma at_release_detect_times (w : World) (src dst : string)
      (known_faces_loc : option string) (use_retinanet : bool) :
  detect_times (at_release w src dst known_faces_loc use_retinanet true)
  = detect_elapsed (detect_fn use_retinanet)
                   (has_some (known_faces_of w known_faces_loc)) 1
                   (delivered (VideoCapture w src)).
Proof.
  unfold at_release, delivered.
  destruct (isOpened (VideoCapture w src)); cbn [emit detect_times].
  - rewrite after_frames_detect_times. reflexivity.
  - reflexivity.
Qed.

Lemma at_release_ticks (w : World) (src dst : string)
      (known_faces_loc : option string) (use_retinanet : bool) :
  let frames := delivered (VideoCapture w src) in
  ticks (at_release w src dst known_faces_loc use_retinanet true)
  = 1 + 2 * List.length frames
    + 2 * List.length
          (matched_frames (detect_fn use_retinanet)
                          (has_some (known_faces_of w known_faces_loc))
                          frames).
Proof.
  cbv zeta. unfold at_release, delivered.
  destruct (isOpened (VideoCapture w src)); cbn [emit ticks].
  - rewrite after_frames_ticks. reflexivity.
  - reflexivity.
Qed.

Lemma at_release_clock_off (w : World) (src dst : string)
      (known_faces_loc : option string) (use_retinanet : bool) :
  let st := at_release w src dst known_faces_loc use_retinanet false in
  ticks st = 0 /\ detect_times st = [] /\ recog_times st = [].
Proof.
  cbv zeta. unfold at_release.
  destruct (isOpened (VideoCapture w src));
    cbn [emit ticks detect_times recog_times].
  - match goal with
    | |- context [after_frames ?d ?p ?k false ?fs ?st] =>
        destruct (after_frames_clock_off d p k fs st) as [Hticks Htimes];
        rewrite Hticks, Htimes, (after_frames_unprofiled d p k fs st)
    end.
    repeat split; reflexivity.
  - repeat split; reflexivity.
Qed.

Lemma at_release_printed (w : World) (src dst : string)
      (known_faces_loc : option string) (use_retinanet profile : bool) :
  printed (trace (at_release w src dst known_faces_loc use_retinanet profile))
  = [].
Proof.
  rewrite at_release_trace. cbv zeta.
  destruct (setup_events_silent w src dst use_retinanet)
    as (_ & _ & _ & _ & _ & _ & H1).
  destruct (gallery_phase_silent w (detect_fn use_retinanet) known_faces_loc)
    as (_ & _ & _ & _ & H2).
  destruct (loop_events_quiet
              (detect_fn use_retinanet)
              (has_some (known_faces_of w known_faces_loc))
              (gallery_of w (detect_fn use_retinanet)
                          (known_faces_of w known_faces_loc))
              (VideoCapture w src))
    as (_ & _ & H3).
  rewrite !printed_app, H1, H2, H3. reflexivity.
Qed.

(** ** What a run does and does not do *)

(** X6: [recognized_face_encs] is never read unbound, so no run fails
    with a [NameError]. Lines 61-72 leave [perform_face_rec] set exactly
    when they have bound the variable, and lines 101 and 105 read it only
    when [perform_face_rec] is set. Of the two assertions of lines 35-36
    the one about [src] is checked first: a bad [src] gives its message
    whatever [dst] is. *)
Theorem recognized_face_encs_is_bound_when_read
        (w : World) (src dst : string) (known_faces_loc : option string)
        (use_retinanet : bool) (batch_size : Z) (profile : bool) :
  (forall st,
      let '(perform_face_rec, recognized_face_encs, _) :=
        get_known_encodings w (detect_fn use_retinanet) known_faces_loc st in
      if perform_face_rec
      then exists known, recognized_face_encs = Some known
      else recognized_face_encs = None)
  /\ (forall name st,
         anonymize_vid w src dst known_faces_loc use_retinanet batch_size
                       profile
         <> Raised (NameError name) st)
  /\ (src_valid src = false ->
      anonymize_vid w src dst known_faces_loc use_retinanet batch_size
                    profile
      = Raised (AssertionError "src is not a valid file.") initial).
Proof.
  split; [|split].
  - intros st. rewrite get_known_encodings_spec. cbv zeta.
    destruct (has_some (known_faces_of w known_faces_loc));
      [eexists|]; reflexivity.
  - intros name st. rewrite anonymize_vid_spec.
    destruct (src_valid src); cbn [negb]; [|discriminate].
    destruct (dst_valid dst); cbn [negb]; discriminate.
  - intros Hsrc. rewrite anonymize_vid_spec, Hsrc. reflexivity.
Qed.

(** X7: a run that passes the assertions starts with the set-up of lines
    43-58 and never repeats it: the model is loaded only if RetinaNet is
    selected, the capture is opened, the parent directory of [dst] is
    created, and the writer is opened on [dst] at 30 frames per second with
    the width and height of the capture, all before any reference image or
    frame is read. *)
Theorem output_is_set_up_once_before_anything_is_read
        (w : World) (src dst : string) (known_faces_loc : option string)
        (use_retinanet : bool) (batch_size : Z) (profile : bool) :
  valid_paths src dst = true ->
  let cap := VideoCapture w src in
  exists rest,
    trace_of (anonymize_vid w src dst known_faces_loc use_retinanet
                            batch_size profile)
    = (if use_retinanet then [LoadRetinanet] else [])
      ++ [OpenCapture src; Mkdir (Path_parent dst);
          OpenWriter dst 30 (FRAME_WIDTH cap) (FRAME_HEIGHT cap)]
      ++ rest
    /\ filter is_setup rest = [].
Proof.
  intros Hvalid. cbv zeta.
  rewrite (valid_run_trace w src dst known_faces_loc use_retinanet
                           batch_size profile Hvalid).
  cbv zeta. unfold setup_events. rewrite <- app_assoc.
  eexists. split; [reflexivity|].
  rewrite !filter_app, gallery_phase_setup, loop_events_setup.
  destruct profile; reflexivity.
Qed.

(** X8: a source that cannot be opened is no error. The loop of line 80
    is not entered: nothing is read from the source and nothing is written
    to the sink. The run still creates the output directory, opens the
    writer, reads every reference image, releases the source and returns
    normally. *)
Theorem unopened_source_gives_an_empty_output
        (w : World) (src dst : string) (known_faces_loc : option string)
        (use_retinanet : bool) (batch_size : Z) (profile : bool) :
  valid_paths src dst = true ->
  isOpened (VideoCapture w src) = false ->
  let cap := VideoCapture w src in
  let run := anonymize_vid w src dst known_faces_loc use_retinanet
                           batch_size profile in
  (exists st, run = Returned st)
  /\ io_events (trace_of run) = []
  /\ In (Mkdir (Path_parent dst)) (trace_of run)
  /\ In (OpenWriter dst 30 (FRAME_WIDTH cap) (FRAME_HEIGHT cap)) (trace_of run)
  /\ image_reads (trace_of run) = known_faces_of w known_faces_loc
  /\ released (trace_of run) = [FrameSource].
Proof.
  intros Hvalid Hclosed. cbv zeta.
  split; [eexists; apply valid_run_returns; exact Hvalid|].
  split.
  { rewrite run_io_events by exact Hvalid. cbv zeta.
    unfold delivered. rewrite Hclosed. reflexivity. }
  rewrite run_image_reads by exact Hvalid.
  rewrite run_released, Hvalid.
  rewrite (valid_run_trace w src dst known_faces_loc use_retinanet
                           batch_size profile Hvalid).
  cbv zeta. unfold setup_events.
  repeat split.
  - apply in_or_app. left. apply in_or_app. right. cbn [In]. auto.
  - apply in_or_app. left. apply in_or_app. right. cbn [In]. auto.
Qed.

(** X9: frames go through the pipeline one at a time. On the two video
    streams a run does, for each frame the capture delivers and in that
    order, one read followed by the write of that frame's output, so a
    frame is written before the next one is read; an opened capture is
    then read once more, which ends the loop. *)
Theorem each_frame_is_written_before_the_next_is_read
        (w : World) (src dst : string) (known_faces_loc : option string)
        (use_retinanet : bool) (batch_size : Z) (profile : bool) :
  valid_paths src dst = true ->
  let detect := detect_fn use_retinanet in
  let known_faces := known_faces_of w known_faces_loc in
  let cap := VideoCapture w src in
  io_events (trace_of (anonymize_vid w src dst known_faces_loc use_retinanet
                                     batch_size profile))
  = flat_map (fun f => [Read (Some f);
                        Write (output_frame detect (has_some known_faces)
                                            (gallery_of w detect known_faces)
                                            f)])
             (delivered cap)
    ++ (if isOpened cap then [Read None] else []).
Proof.
  intros Hvalid. cbv zeta. apply run_io_events. exact Hvalid.
Qed.

(** X10: every reference image the search of line 63 finds is decoded
    exactly once, in the order it was found, and the embedder is called
    once for each of them and once more for each frame on which matching
    runs. *)
Theorem every_reference_image_is_read_and_embedded_once
        (w : World) (src dst : string) (known_faces_loc : option string)
        (use_retinanet : bool) (batch_size : Z) (profile : bool) :
  valid_paths src dst = true ->
  let detect := detect_fn use_retinanet in
  let known_faces := known_faces_of w known_faces_loc in
  let tr := trace_of (anonymize_vid w src dst known_faces_loc use_retinanet
                                    batch_size profile) in
  image_reads tr = known_faces
  /\ firstn (List.length known_faces) (embed_calls tr)
     = map (fun p => (rgb_read w p, detect (rgb_read w p))) known_faces
  /\ List.length (embed_calls tr)
     = List.length known_faces
       + List.length (matched_frames detect (has_some known_faces)
                                     (delivered (VideoCapture w src))).
Proof.
  intros Hvalid. cbv zeta.
  rewrite run_image_reads by exact Hvalid.
  rewrite run_embed_calls, Hvalid. unfold gallery_embed_calls, matched_frames.
  repeat split.
  - rewrite <- (length_map
                  (fun p => (rgb_read w p,
                             detect_fn use_retinanet (rgb_read w p)))
                  (known_faces_of w known_faces_loc)) at 1.
    rewrite firstn_app, firstn_all, Nat.sub_diag. cbn [firstn].
    apply app_nil_r.
  - rewrite length_app, !length_map. reflexivity.
Qed.

(** X11: without a gallery directory ([known_faces_loc] is [None]) face
    recognition stays off for the whole run: the warning of line 65 is not
    given, no image is read, the embedder and the matcher are never called,
    and every detected face of every frame is obscured. *)
Theorem no_gallery_directory_blurs_every_face
        (w : World) (src dst : string) (use_retinanet : bool)
        (batch_size : Z) (profile : bool) :
  valid_paths src dst = true ->
  let tr := trace_of (anonymize_vid w src dst None use_retinanet
                                    batch_size profile) in
  ~ In no_faces_warning (warnings tr)
  /\ image_reads tr = []
  /\ embed_calls tr = []
  /\ recognize_calls tr = []
  /\ frames_written tr
     = map (anonymised_frame (detect_fn use_retinanet))
           (delivered (VideoCapture w src)).
Proof.
  intros Hvalid. cbv zeta.
  rewrite run_image_reads by exact Hvalid.
  rewrite run_warnings, run_embed_calls, run_recognize_calls,
    run_frames_written, Hvalid.
  cbn [known_faces_of has_some gallery_embed_calls map app].
  rewrite matching_needs_gallery.
  repeat split; [intros [] |].
  apply map_ext. intros f. apply output_frame_without_gallery.
Qed.

(** X12: with profiling on, detection is timed on every frame read,
    faces or no faces: the detection collector holds, for each frame in
    order, the difference of the two clock readings taken around its
    detection, so it is as long as the sequence of frames read and never
    shorter than the recognition collector. *)
Theorem detection_is_timed_on_every_frame
        (w : World) (src dst : string) (known_faces_loc : option string)
        (use_retinanet : bool) (batch_size : Z) :
  valid_paths src dst = true ->
  let detect := detect_fn use_retinanet in
  let perform_face_rec := has_some (known_faces_of w known_faces_loc) in
  let run := anonymize_vid w src dst known_faces_loc use_retinanet
                           batch_size true in
  let st := locals_of run in
  (exists st', run = Returned st')
  /\ detect_times st
     = detect_elapsed detect perform_face_rec 1
                      (delivered (VideoCapture w src))
  /\ List.length (detect_times st) = List.length (frames_read (trace st))
  /\ List.length (recog_times st) <= List.length (detect_times st).
Proof.
  intros Hvalid. cbv zeta.
  split; [eexists; apply valid_run_returns; exact Hvalid|].
  change (trace (locals_of ?r)) with (trace_of r).
  rewrite run_frames_read, Hvalid.
  rewrite (valid_run_returns w src dst known_faces_loc use_retinanet
                             batch_size true Hvalid).
  cbn [locals_of].
  change (detect_times (summarize ?c ?t ?s)) with (detect_times s).
  change (recog_times (summarize ?c ?t ?s)) with (recog_times s).
  rewrite at_release_detect_times, at_release_recog_times.
  rewrite detect_elapsed_length, recog_elapsed_length.
  repeat split. apply filter_length_le.
Qed.

(** X13: a profiled run reads the clock twice per frame read, twice more
    per frame on which matching runs, once at the start and once at the
    end, and prints exactly three lines. The run time is the last reading
    minus the first. The frame count of the first line, and the frame rate
    computed from it, come from the metadata of the capture, not from the
    number of frames that were processed. *)
Theorem profile_summary_reports_the_container_frame_count
        (w : World) (src dst : string) (known_faces_loc : option string)
        (use_retinanet : bool) (batch_size : Z) :
  valid_paths src dst = true ->
  let detect := detect_fn use_retinanet in
  let perform_face_rec := has_some (known_faces_of w known_faces_loc) in
  let cap := VideoCapture w src in
  let frames := delivered cap in
  let st := locals_of (anonymize_vid w src dst known_faces_loc use_retinanet
                                     batch_size true) in
  let last_reading :=
    1 + 2 * List.length frames
    + 2 * List.length (matched_frames detect perform_face_rec frames) in
  let runtime := fsub (time_time last_reading) (time_time 0) in
  ticks st = S last_reading
  /\ printed (trace st)
     = [TotalLine runtime (FRAME_COUNT cap)
                  (fdiv (of_int (FRAME_COUNT cap)) runtime);
        DetectionLine (np_mean (detect_times st))
                      (List.length (detect_times st))
                      (fdiv (of_int 1) (np_mean (detect_times st)));
        RecognitionLine (np_mean (recog_times st))
                        (List.length (recog_times st))
                        (fdiv (of_int 1) (np_mean (recog_times st)))].
Proof.
  intros Hvalid. cbv zeta.
  rewrite (valid_run_returns w src dst known_faces_loc use_retinanet
                             batch_size true Hvalid).
  cbn [locals_of].
  change (detect_times (summarize ?c ?t ?s)) with (detect_times s).
  change (recog_times (summarize ?c ?t ?s)) with (recog_times s).
  split.
  - change (ticks (summarize ?c ?t ?s)) with (S (ticks s)).
    rewrite at_release_ticks. reflexivity.
  - rewrite summarize_trace, printed_app, at_release_printed.
    unfold summary_events, now. rewrite at_release_ticks. reflexivity.
Qed.

(** X14: without profiling a run never reads the clock, collects no
    timing and prints nothing. *)
Theorem unprofiled_run_reads_no_clock_and_prints_nothing
        (w : World) (src dst : string) (known_faces_loc : option string)
        (use_retinanet : bool) (batch_size : Z) :
  let st := locals_of (anonymize_vid w src dst known_faces_loc use_retinanet
                                     batch_size false) in
  ticks st = 0
  /\ detect_times st = []
  /\ recog_times st = []
  /\ printed (trace st) = [].
Proof.
  cbv zeta. rewrite anonymize_vid_spec.
  destruct (src_valid src); cbn [negb]; [|repeat split].
  destruct (dst_valid dst); cbn [negb]; [|repeat split].
  cbv zeta. cbn [locals_of].
  destruct (at_release_clock_off w src dst known_faces_loc use_retinanet)
    as (Hticks & Hdetect & Hrecog).
  rewrite Hticks, Hdetect, Hrecog, at_release_printed.
  repeat split.
Qed.

End FurtherRuns.

(** ** The further properties on concrete runs

    The runs below take place in [Demo.world] and in [Demo2.world]: there
    [broken.mp4] is a file that the capture fails to open, [cut.mp4] is a
    clip that announces five frames and delivers two, and the directory
    [team] holds [a.jpg], [B.JPG] and a sub-directory named [old.jpg] with
    [c.jpg] and [notes.txt] in it. *)

Lemma validation_ignores_the_case_witness :
  eq_ignoring_ascii_case "Out/Clip.MP4" "out/clip.mp4" = true
  /\ src_valid "Out/Clip.MP4" = src_valid "out/clip.mp4"
  /\ dst_valid "Out/Clip.MP4" = dst_valid "out/clip.mp4".
Proof.
  split; [reflexivity|].
  apply (validation_ignores_the_case_of_ascii_letters
           "Out/Clip.MP4" "out/clip.mp4").
  reflexivity.
Defined.

Lemma a_valid_destination_witness :
  dst_valid "clips/day1.Mp4" = true
  /\ src_valid "clips/day1.Mp4" = true
  /\ valid_paths "clips/day1.Mp4" "clips/day1.Mp4" = true.
Proof.
  split; [reflexivity|].
  apply (a_valid_destination_is_a_valid_source "clips/day1.Mp4").
  reflexivity.
Defined.

Lemma recognized_face_encs_is_bound_witness :
  src_valid "clip.avi" = false
  /\ Demo.run "clip.avi" "notes.txt" (Some "faces") true 1%Z true
     = Raised (AssertionError "src is not a valid file.")
              (initial (C := Demo.models)).
Proof.
  split; [reflexivity|].
  apply (proj2 (proj2 (recognized_face_encs_is_bound_when_read
                         (C := Demo.models) Demo.world "clip.avi"
                         "notes.txt" (Some "faces") true 1%Z true))).
  reflexivity.
Defined.

Lemma output_is_set_up_once_witness :
  valid_paths "in.mp4" "out/x.mp4" = true
  /\ exists rest,
      trace_of (Demo.run "in.mp4" "out/x.mp4" (Some "faces") true 1%Z true)
      = ([LoadRetinanet (C := Demo.models)]
         ++ [OpenCapture "in.mp4"; Mkdir "out"; OpenWriter "out/x.mp4" 30 1 1]
         ++ rest)%list
      /\ filter (is_setup (C := Demo.models)) rest = [].
Proof.
  split; [reflexivity|].
  apply (output_is_set_up_once_before_anything_is_read
           (C := Demo.models) Demo.world "in.mp4" "out/x.mp4"
           (Some "faces") true 1%Z true).
  reflexivity.
Defined.

Lemma unopened_source_witness :
  let run := Demo2.run "broken.mp4" "out/x.mp4" (Some "team") false 1%Z
                       false in
  valid_paths "broken.mp4" "out/x.mp4" = true
  /\ isOpened (VideoCapture Demo2.world "broken.mp4") = false
  /\ (exists st, run = Returned st)
  /\ io_events (trace_of run) = []
  /\ In (Mkdir "out") (trace_of run)
  /\ In (OpenWriter "out/x.mp4" 30 0 0) (trace_of run)
  /\ image_reads (trace_of run)
     = ["team/a.jpg"; "team/old.jpg"; "team/old.jpg/c.jpg"]
  /\ released (trace_of run) = [FrameSource].
Proof.
  cbv zeta. split; [reflexivity|]. split; [reflexivity|].
  apply (unopened_source_gives_an_empty_output
           (C := Demo.models) Demo2.world "broken.mp4" "out/x.mp4"
           (Some "team") false 1%Z false);
    reflexivity.
Defined.

Lemma each_frame_is_written_witness :
  valid_paths "in.mp4" "out/x.mp4" = true
  /\ io_events (trace_of (Demo.run "in.mp4" "out/x.mp4" (Some "faces")
                                   false 1%Z false))
     = [Read (C := Demo.models) (Some (Demo.face 7));
        Write [[mkPixel 0 7 0]];
        Read (Some Demo.blank); Write Demo.blank;
        Read (Some (Demo.face 9)); Write [[mkPixel 255 9 30]];
        Read None].
Proof.
  split; [reflexivity|].
  apply (each_frame_is_written_before_the_next_is_read
           (C := Demo.models) Demo.world "in.mp4" "out/x.mp4"
           (Some "faces") false 1%Z false).
  reflexivity.
Defined.

Lemma every_reference_image_witness :
  let tr := trace_of (Demo.run "in.mp4" "out/x.mp4" (Some "faces")
                               false 1%Z false) in
  valid_paths "in.mp4" "out/x.mp4" = true
  /\ image_reads tr = ["faces/a.jpg"; "faces/b.jpg"]
  /\ firstn 2 (embed_calls tr)
     = [(Demo.face 7, [7%Z]); (Demo.face 9, [9%Z])]
  /\ List.length (embed_calls tr) = 2 + 2.
Proof.
  cbv zeta. split; [reflexivity|].
  apply (every_reference_image_is_read_and_embedded_once
           (C := Demo.models) Demo.world "in.mp4" "out/x.mp4"
           (Some "faces") false 1%Z false).
  reflexivity.
Defined.

Lemma no_gallery_directory_witness :
  let tr := trace_of (Demo.run "in.mp4" "out/x.mp4" None true 1%Z true) in
  valid_paths "in.mp4" "out/x.mp4" = true
  /\ ~ In no_faces_warning (warnings tr)
  /\ image_reads tr = []
  /\ embed_calls tr = []
  /\ recognize_calls tr = []
  /\ frames_written tr
     = [[[mkPixel 0 7 0]]; Demo.blank; [[mkPixel 0 9 0]]].
Proof.
  cbv zeta. split; [reflexivity|].
  apply (no_gallery_directory_blurs_every_face
           (C := Demo.models) Demo.world "in.mp4" "out/x.mp4"
           true 1%Z true).
  reflexivity.
Defined.

Lemma detection_is_timed_witness :
  let run := Demo.run "in.mp4" "out/x.mp4" (Some "faces") false 1%Z true in
  valid_paths "in.mp4" "out/x.mp4" = true
  /\ (exists st', run = Returned st')
  /\ detect_times (locals_of run) = [10%Z; 10%Z; 10%Z]
  /\ List.length (detect_times (locals_of run))
     = List.length (frames_read (trace (locals_of run)))
  /\ List.length (recog_times (locals_of run))
     <= List.length (detect_times (locals_of run)).
Proof.
  cbv zeta. split; [reflexivity|].
  apply (detection_is_timed_on_every_frame
           (C := Demo.models) Demo.world "in.mp4" "out/x.mp4"
           (Some "faces") false 1%Z).
  reflexivity.
Defined.

Lemma profile_summary_witness :
  let st := locals_of (Demo2.run "cut.mp4" "out/x.mp4" None false 1%Z
                                 true) in
  let cap := VideoCapture Demo2.world "cut.mp4" in
  let last_reading :=
    1 + 2 * List.length (delivered cap)
    + 2 * List.length
          (matched_frames (C := Demo.models)
                          (detect_fn (C := Demo.models) false)
                          (has_some (known_faces_of Demo2.world None))
                          (delivered cap)) in
  let runtime :=
    @fsub Demo.models (time_time last_reading) (time_time 0) in
  valid_paths "cut.mp4" "out/x.mp4" = true
  /\ FRAME_COUNT cap = 5%Z
  /\ List.length (delivered cap) = 2
  /\ ticks st = S last_reading
  /\ printed (trace st)
     = [TotalLine runtime (FRAME_COUNT cap)
                  (fdiv (of_int (FRAME_COUNT cap)) runtime);
        DetectionLine (np_mean (detect_times st))
                      (List.length (detect_times st))
                      (fdiv (of_int 1) (np_mean (detect_times st)));
        RecognitionLine (np_mean (recog_times st))
                        (List.length (recog_times st))
                        (fdiv (of_int 1) (np_mean (recog_times st)))].
Proof.
  cbv zeta. split; [reflexivity|]. split; [reflexivity|].
  split; [reflexivity|].
  exact (profile_summary_reports_the_container_frame_count
           (C := Demo.models) Demo2.world "cut.mp4" "out/x.mp4"
           None false 1%Z eq_refl).
Defined.

(** In [team], the search finds the file [a.jpg], the directory [old.jpg]
    and the file [c.jpg] in it, and not [B.JPG]. *)
Example rglob_lists_directories_too :
  rglob_jpg "team" (scandir Demo2.world "team")
  = ["team/a.jpg"; "team/old.jpg"; "team/old.jpg/c.jpg"]
  /\ count_jpg (scandir Demo2.world "team") = 3.
Proof. split; reflexivity. Qed.

(** * The gallery search (line 63) *)

Section GallerySearch.

Context {C : Collaborators}.
Local Open Scope list_scope.


End GallerySearch.


